(** * Placeholder engine of the Word form servers

    Shallow embedding of the placeholder discovery and substitution code of
    [server.py], [server-new.py] and [server-gemini.py], and the properties
    of the specification checked against it.

    Text is a [string]; a character is a code point below 256.  A FieldMap
    is a Python [dict]: an association list in insertion order whose keys
    are unique.  Field values are taken after [str(value)]. *)

From Stdlib Require Import Ascii String.
From stdpp Require Import base list gmap strings sorting.

Local Open Scope string_scope.
Local Open Scope list_scope.
Local Open Scope nat_scope.

(** ** Python [str] operations used by the servers *)

Module PyStr.

(** [str.isspace] on one character, which is also the class [\s] of a
    [str] pattern: TAB..CR, FS..US, SPACE, NEL and NBSP. *)
Definition isspace (c : ascii) : bool :=
  let n := nat_of_ascii c in
  ((9 <=? n) && (n <=? 13)) || ((28 <=? n) && (n <=? 32))
  || (n =? 133) || (n =? 160).

Fixpoint lstrip (s : string) : string :=
  match s with
  | String c s' => if isspace c then lstrip s' else s
  | EmptyString => EmptyString
  end.

Fixpoint rstrip (s : string) : string :=
  match s with
  | String c s' =>
      match rstrip s' with
      | EmptyString => if isspace c then EmptyString else String c EmptyString
      | r => String c r
      end
  | EmptyString => EmptyString
  end.

(** [s.strip()] *)
Definition strip (s : string) : string := rstrip (lstrip s).

(** [sub in s] *)
Fixpoint contains (sub s : string) : bool :=
  String.prefix sub s
  || match s with
     | String _ s' => contains sub s'
     | EmptyString => false
     end.

(** [c in s] for a single character *)
Fixpoint has_char (c : ascii) (s : string) : bool :=
  match s with
  | String d s' => Ascii.eqb c d || has_char c s'
  | EmptyString => false
  end.

(** Left-to-right scan for non-overlapping occurrences of [sub]; [skip]
    is the number of characters still covered by the last occurrence. *)
Fixpoint count_from (sub : string) (skip : nat) (s : string) : nat :=
  match s with
  | EmptyString => 0
  | String _ s' =>
      match skip with
      | S n => count_from sub n s'
      | O =>
          if String.prefix sub s
          then S (count_from sub (String.length sub - 1) s')
          else count_from sub 0 s'
      end
  end.

(** [s.count(sub)] *)
Definition str_count (sub s : string) : nat :=
  match sub with
  | EmptyString => S (String.length s)
  | _ => count_from sub 0 s
  end.

Fixpoint replace_from (old new : string) (skip : nat) (s : string) : string :=
  match s with
  | EmptyString => EmptyString
  | String c s' =>
      match skip with
      | S n => replace_from old new n s'
      | O =>
          if String.prefix old s
          then new +:+ replace_from old new (String.length old - 1) s'
          else String c (replace_from old new 0 s')
      end
  end.

Fixpoint insert_after_each (new s : string) : string :=
  match s with
  | EmptyString => EmptyString
  | String c s' => String c (new +:+ insert_after_each new s')
  end.

(** [s.replace(old, new)] *)
Definition str_replace (old new s : string) : string :=
  match old with
  | EmptyString => new +:+ insert_after_each new s
  | _ => replace_from old new 0 s
  end.


(** [s[:n]] *)
Fixpoint take_str (n : nat) (s : string) : string :=
  match n, s with
  | S n', String c s' => String c (take_str n' s')
  | _, _ => EmptyString
  end.

(** Truth value of a [str]: it is not empty. *)
Definition nonempty (s : string) : bool :=
  match s with
  | EmptyString => false
  | String _ _ => true
  end.

End PyStr.

(** ** The fragment of Python [re] used by the servers *)

Module PyRe.
Import PyStr.

(** A pattern is a sequence of atoms.  Both discovery patterns are built
    from literal characters, one capture group, and [*], [+], [+?]
    applied to a character class. *)
Inductive atom : Type :=
| Lit (c : ascii)
| Star (cls : ascii -> bool) (greedy : bool)
| Plus (cls : ascii -> bool) (greedy : bool)
| GOpen
| GClose.

(** Capture state: whether group 1 is open, and its text so far. *)
Record caps : Type := Caps { recording : bool; group1 : string }.

Definition eat (c : ascii) (st : caps) : caps :=
  if recording st
  then Caps true (group1 st +:+ String c EmptyString)
  else st.

(** Backtracking repetition of a class, followed by the continuation [k].
    Greedy: take as many characters as possible, give back one at a time.
    Lazy: try the continuation first, take one more character on failure. *)
Fixpoint rep {R : Type} (cls : ascii -> bool) (greedy : bool)
    (k : caps -> string -> option R) (st : caps) (s : string) : option R :=
  match s with
  | String c s' =>
      if cls c then
        if greedy then
          match rep cls greedy k (eat c st) s' with
          | Some r => Some r
          | None => k st s
          end
        else
          match k st s with
          | Some r => Some r
          | None => rep cls greedy k (eat c st) s'
          end
      else k st s
  | EmptyString => k st s
  end.

Fixpoint exec (p : list atom) (st : caps) (s : string) : option (caps * string) :=
  match p with
  | [] => Some (st, s)
  | Lit c :: p' =>
      match s with
      | String d s' => if Ascii.eqb c d then exec p' (eat d st) s' else None
      | EmptyString => None
      end
  | Star cls g :: p' => rep cls g (exec p') st s
  | Plus cls g :: p' =>
      match s with
      | String d s' => if cls d then rep cls g (exec p') (eat d st) s' else None
      | EmptyString => None
      end
  | GOpen :: p' => exec p' (Caps true EmptyString) s
  | GClose :: p' => exec p' (Caps false (group1 st)) s
  end.

(** A match anchored at the start of [s]: group 1 and the unread rest. *)
Definition match_at (p : list atom) (s : string) : option (string * string) :=
  match exec p (Caps false EmptyString) s with
  | Some (st, rest) => Some (group1 st, rest)
  | None => None
  end.

(** [re.findall(p, s)] for a pattern with one group: the group of every
    non-overlapping match, leftmost first.  [skip] counts the characters
    still covered by the last match. *)
Fixpoint findall_from (p : list atom) (skip : nat) (s : string) : list string :=
  match s with
  | EmptyString =>
      match skip, match_at p EmptyString with
      | O, Some (g, _) => [g]
      | _, _ => []
      end
  | String _ s' =>
      match skip with
      | S n => findall_from p n s'
      | O =>
          match match_at p s with
          | Some (g, rest) =>
              g :: findall_from p (String.length s - String.length rest - 1) s'
          | None => findall_from p 0 s'
          end
      end
  end.

Definition findall (p : list atom) (s : string) : list string :=
  findall_from p 0 s.

Definition not_rbrace (c : ascii) : bool := negb (Ascii.eqb c "}").
Definition not_brace (c : ascii) : bool :=
  negb (Ascii.eqb c "{") && negb (Ascii.eqb c "}").

(** [r'\{\{([^}]+)\}\}'] *)
Definition re_field : list atom :=
  [Lit "{"; Lit "{"; GOpen; Plus not_rbrace true; GClose; Lit "}"; Lit "}"].

(** [r'\{\{\s*([^{}]+?)\s*\}\}'] *)
Definition re_field_ws : list atom :=
  [Lit "{"; Lit "{"; Star isspace true; GOpen; Plus not_brace false; GClose;
   Star isspace true; Lit "}"; Lit "}"].


(** The class [\w] of a [str] pattern: [c.isalnum() or c == '_'], for code
    points below 256. *)
Definition isword (c : ascii) : bool :=
  let n := nat_of_ascii c in
  ((48 <=? n) && (n <=? 57)) || ((65 <=? n) && (n <=? 90)) || (n =? 95)
  || ((97 <=? n) && (n <=? 122)) || (n =? 170)
  || ((178 <=? n) && (n <=? 179)) || (n =? 181)
  || ((185 <=? n) && (n <=? 186)) || ((188 <=? n) && (n <=? 190))
  || ((192 <=? n) && (n <=? 214)) || ((216 <=? n) && (n <=? 246))
  || (248 <=? n).

(** [re.sub(r'[...]', '', s)] for a class of single characters: the
    characters of the class are dropped. *)
Fixpoint sub_class_empty (cls : ascii -> bool) (s : string) : string :=
  match s with
  | String c s' =>
      if cls c then sub_class_empty cls s' else String c (sub_class_empty cls s')
  | EmptyString => EmptyString
  end.

(** [re.sub(r'[...]+', repl, s)] for a replacement without backslash: every
    maximal run of characters of the class becomes one [repl]; [in_run]
    tells that the run at hand has been replaced already. *)
Fixpoint sub_runs_from (cls : ascii -> bool) (repl : string) (in_run : bool)
    (s : string) : string :=
  match s with
  | String c s' =>
      if cls c then
        (if in_run then EmptyString else repl) +:+ sub_runs_from cls repl true s'
      else String c (sub_runs_from cls repl false s')
  | EmptyString => EmptyString
  end.

Definition sub_runs (cls : ascii -> bool) (repl s : string) : string :=
  sub_runs_from cls repl false s.

End PyRe.

(** ** Python [dict] with [str] keys: the FieldMap *)

Module PyDict.

(** Items in insertion order; keys are unique in a real [dict]. *)
Definition fieldmap : Type := list (string * string).

(** [m[k]], [None] when the key is absent *)
Fixpoint dict_get (k : string) (m : fieldmap) : option string :=
  match m with
  | [] => None
  | (k', v) :: m' => if String.eqb k k' then Some v else dict_get k m'
  end.

(** [k in m] *)
Definition dict_in (k : string) (m : fieldmap) : bool :=
  match dict_get k m with
  | Some _ => true
  | None => false
  end.

(** [m1 == m2]: the same keys with the same values, in any order *)
Definition dict_eq (m1 m2 : fieldmap) : Prop :=
  forall k, dict_get k m1 = dict_get k m2.


(** [m.get(k, default)] *)
Definition dict_get_default (k : string) (default : string) (m : fieldmap)
    : string :=
  match dict_get k m with
  | Some v => v
  | None => default
  end.

(** What [json.loads(fields_data)] gives a tool: it raises
    [JSONDecodeError], or it is the FieldMap.  The tools are modelled for a
    JSON object whose values are all strings; what they do with a number,
    a boolean, [null], a list or an object as a value is not modelled. *)
Inductive json_arg : Type :=
| BadJson
| JsonObject (data : fieldmap).

End PyDict.

(** ** The python-docx object model, as far as the servers use it *)

Module Docx.

(** A paragraph is the list of its runs, each seen through [run.text]; what
    a run holds besides text is not modelled.  Paragraph objects live in a
    heap and are referred to by index, so that
    a paragraph reached twice (a merged cell, a header shared by two
    sections) is one object. *)
Definition Paragraph : Type := list string.
Definition pid : Type := nat.

Record Section_ : Type := {
  header : option (list pid);
  first_page_header : option (list pid);
  even_page_header : option (list pid);
  footer : option (list pid);
  first_page_footer : option (list pid);
  even_page_footer : option (list pid)
}.

Definition Cell : Type := list pid.
Definition Row : Type := list Cell.
Definition Table : Type := list Row.

Record Document : Type := {
  heap : list Paragraph;
  paragraphs : list pid;
  tables : list Table;
  sections : list Section_
}.

(** [paragraph.text]: the run texts concatenated.  The text of a
    hyperlink, which python-docx 1.x adds to [paragraph.text] and which is
    no run, is not modelled. *)
Definition text (p : Paragraph) : string := foldr String.append EmptyString p.

(** [paragraph.text = t]: all runs are removed and one run holding [t]
    is added.  This is the assignment of a text that is stored as it is;
    [assign_text] below says what python-docx stores for any text, and
    when the assignment raises. *)
Definition set_text (t : string) : Paragraph := [t].

(** What python-docx makes of the text assigned to [run.text], and so to
    [paragraph.text], which adds a run and assigns its text.  A tab, a line
    feed and a carriage return become the elements [w:tab] and [w:br]; the
    rest is put into [w:t] elements, and [lxml] raises [ValueError] for a
    character that XML cannot hold: a control character below the space
    other than those three. *)
Definition xml_char (c : ascii) : bool :=
  let n := nat_of_ascii c in
  (32 <=? n) || (n =? 9) || (n =? 10) || (n =? 13).

Fixpoint xml_text (t : string) : bool :=
  match t with
  | String c t' => xml_char c && xml_text t'
  | EmptyString => true
  end.

(** A [w:br], written for a line feed or for a carriage return, is read
    as a line feed. *)
Definition read_back_char (c : ascii) : ascii :=
  if Ascii.eqb c "013" then "010"%char else c.

Fixpoint read_back (t : string) : string :=
  match t with
  | String c t' => String (read_back_char c) (read_back t')
  | EmptyString => EmptyString
  end.

(** [run.text = t]: the text that [run.text] gives afterwards, [None] when
    the assignment raises [ValueError]. *)
Definition assign_text (t : string) : option string :=
  if xml_text t then Some (read_back t) else None.

(** Assignments to [run.text] and [paragraph.text], in program order. *)
Inductive write : Type :=
| SetRunText (p : pid) (i : nat)
| SetParagraphText (p : pid).

(** State of a substitution pass over a document. *)
Record pass : Type := Pass {
  objects : list Paragraph;
  replacements_count : nat;
  writes : list write
}.

Section Loops.
Context {St : Type} (visit : St -> pid -> St).

(** [for paragraph in ps: ...] *)
Definition for_paragraphs (st : St) (ps : list pid) : St := foldl visit st ps.

(** [for table in doc.tables: for row in table.rows:
     for cell in row.cells: for paragraph in cell.paragraphs: ...] *)
Definition for_tables (st : St) (ts : list Table) : St :=
  foldl (fun st table =>
    foldl (fun st row =>
      foldl (fun st cell => for_paragraphs st cell) st row) st table) st ts.

(** [if part: for paragraph in part.paragraphs: ...] *)
Definition for_part (st : St) (part : option (list pid)) : St :=
  match part with
  | Some ps => for_paragraphs st ps
  | None => st
  end.
End Loops.

(** A visit that only records which paragraph it is given. *)
Definition record_visit (trace : list pid) (p : pid) : list pid := trace ++ [p].

(** [sorted(list(fields))]: strings compare by code point. *)
Definition sorted_list (fields : gset string) : list string :=
  merge_sort String.le (elements fields).


(** The template file of a tool call: not there, there but refused by
    [Document(...)], or loaded. *)
Inductive template : Type :=
| NoTemplate
| BadTemplate
| Template (doc : Document).

(** What a tool answers.  The answer is a text; [Shown a] stands for the
    regular text, built from the values in [a], and the other three for the
    texts of [if not TEMPLATE_PATH.exists()], [except json.JSONDecodeError]
    and [except Exception]. *)
Inductive reply (A : Type) : Type :=
| Shown (a : A)
| TemplateNotFound
| InvalidJson
| OtherError.
Arguments Shown {A} a.
Arguments TemplateNotFound {A}.
Arguments InvalidJson {A}.
Arguments OtherError {A}.

(** One line of a preview per template field: the field with its value, or
    the field marked [SIN VALOR]. *)
Inductive preview_line : Type :=
| WithValue (field value : string)
| WithoutValue (field : string).

End Docx.

(** ** server.py *)

Module Server.
Import PyStr PyRe PyDict Docx.

(** [extract_fields_from_text]: adds the matches to the set [fields] of
    the enclosing call. *)
Definition extract_fields_from_text (fields : gset string) (text : string)
    : gset string :=
  fields ∪ list_to_set (findall re_field text).

Definition find_visit (heap : list Paragraph) (fields : gset string) (p : pid)
    : gset string :=
  match heap !! p with
  | Some para => extract_fields_from_text fields (text para)
  | None => fields
  end.

(** The loops of [find_template_fields] over a loaded document. *)
Definition find_loops {St : Type} (visit : St -> pid -> St)
    (doc : Document) (st : St) : St :=
  let st := for_paragraphs visit st (paragraphs doc) in
  let st := for_tables visit st (tables doc) in
  foldl (fun st section =>
    let st := for_part visit st (header section) in
    for_part visit st (footer section)) st (sections doc).

Definition find_template_fields (doc : Document) : list string :=
  sorted_list (find_loops (find_visit (heap doc)) doc ∅).

(** [f"{{{{{field}}}}}"] *)
Definition pattern_of (field : string) : string := "{{" +:+ field +:+ "}}".

(** Body of [for field, value in fields_data.items()] on one run. *)
Definition replace_field (acc : string * nat) (item : string * string)
    : string * nat :=
  let '(new_text, count) := acc in
  let pattern := pattern_of item.1 in
  if contains pattern new_text then
    let occurrences := str_count pattern new_text in
    (str_replace pattern item.2 new_text, count + occurrences)
  else acc.

(** Body of [for run in paragraph.runs]: the run text after all fields,
    and the running count. *)
Definition replace_in_run (fields_data : fieldmap) (count : nat)
    (original_text : string) : string * nat :=
  foldl replace_field (original_text, count) fields_data.

(** [replace_in_runs(paragraph, fields_data)]; [run.text = new_text] is
    executed for every run, here with the new text stored as it is;
    [ServerDocx.replace_in_runs] has the assignment of python-docx. *)
Definition replace_in_runs (fields_data : fieldmap) (p : pid) (runs : Paragraph)
    : Paragraph * nat * list write :=
  foldl (fun '(done, count, ws) run =>
           let '(new_text, count') := replace_in_run fields_data count run in
           (done ++ [new_text], count', ws ++ [SetRunText p (length done)]))
        ([], 0, []) runs.

Definition replace_visit (fields_data : fieldmap) (st : pass) (p : pid) : pass :=
  match objects st !! p with
  | Some para =>
      let '(runs, count, ws) := replace_in_runs fields_data p para in
      Pass (<[p := runs]> (objects st)) (replacements_count st + count)
           (writes st ++ ws)
  | None => st
  end.

(** The loops of [replace_fields_in_document]. *)
Definition replace_loops {St : Type} (visit : St -> pid -> St)
    (doc : Document) (st : St) : St :=
  let st := for_paragraphs visit st (paragraphs doc) in
  let st := for_tables visit st (tables doc) in
  foldl (fun st section =>
    let st := for_part visit st (header section) in
    for_part visit st (footer section)) st (sections doc).

Definition replace_fields_in_document (doc : Document) (fields_data : fieldmap)
    : pass :=
  replace_loops (replace_visit fields_data) doc (Pass (heap doc) 0 []).

End Server.

(** ** server-new.py *)

Module ServerNew.
Import PyStr PyRe PyDict Docx.

(** [extract_fields]: adds the matches to the set [fields] of the
    enclosing call. *)
Definition extract_fields (fields : gset string) (text : string) : gset string :=
  fields ∪ list_to_set (findall re_field_ws text).

Definition find_visit (heap : list Paragraph) (fields : gset string) (p : pid)
    : gset string :=
  match heap !! p with
  | Some para => extract_fields fields (text para)
  | None => fields
  end.

(** The loops of [find_template_fields]; the section loop runs over
    [[section.header, section.footer]]. *)
Definition find_loops {St : Type} (visit : St -> pid -> St)
    (doc : Document) (st : St) : St :=
  let st := for_paragraphs visit st (paragraphs doc) in
  let st := for_tables visit st (tables doc) in
  foldl (fun st section =>
    foldl (for_part visit) st [header section; footer section])
    st (sections doc).

Definition find_template_fields (doc : Document) : list string :=
  sorted_list (find_loops (find_visit (heap doc)) doc ∅).

(** [f"{{{{ {field} }}}}" if ' ' in field else f"{{{{{field}}}}}"] *)
Definition original_pattern (field : string) : string :=
  if has_char " " field
  then "{{ " +:+ field +:+ " }}"
  else "{{" +:+ field +:+ "}}".

(** Body of [for field in fields_in_text]. *)
Definition replace_field (fields_data : fieldmap) (acc : string * nat)
    (field : string) : string * nat :=
  let '(new_text, count) := acc in
  let clean_field := strip field in
  match dict_get clean_field fields_data with
  | Some value => (str_replace (original_pattern field) value new_text, count + 1)
  | None => acc
  end.

(** [replace_in_text(text)], with the [fields_data] of the enclosing call *)
Definition replace_in_text (fields_data : fieldmap) (text : string)
    : string * nat :=
  let fields_in_text := findall re_field_ws text in
  foldl (replace_field fields_data) (text, 0) fields_in_text.

(** Body of the paragraph loops of [replace_fields_in_document]. *)
Definition replace_visit (fields_data : fieldmap) (st : pass) (p : pid) : pass :=
  match objects st !! p with
  | Some para =>
      let '(new_text, count) := replace_in_text fields_data (text para) in
      if 0 <? count
      then Pass (<[p := set_text new_text]> (objects st))
                (replacements_count st + count)
                (writes st ++ [SetParagraphText p])
      else st
  | None => st
  end.

Definition replace_loops {St : Type} (visit : St -> pid -> St)
    (doc : Document) (st : St) : St :=
  let st := for_paragraphs visit st (paragraphs doc) in
  let st := for_tables visit st (tables doc) in
  foldl (fun st section =>
    foldl (for_part visit) st [header section; footer section])
    st (sections doc).

Definition replace_fields_in_document (doc : Document) (fields_data : fieldmap)
    : pass :=
  replace_loops (replace_visit fields_data) doc (Pass (heap doc) 0 []).


(** What [preview_replacements] shows: the lines of the template fields,
    the keys listed as not in the template, and the two numbers of the
    summary. *)
Record preview : Type := Preview {
  field_lines : list preview_line;
  extra_fields : gset string;
  replaced_count : nat;
  template_count : nat
}.

(** Body of [for field in template_fields] in [preview_replacements]. *)
Definition preview_field (data : fieldmap) (acc : list preview_line * nat)
    (field : string) : list preview_line * nat :=
  let '(result, replaced_count) := acc in
  match dict_get field data with
  | Some value => (result ++ [WithValue field value], replaced_count + 1)
  | None => (result ++ [WithoutValue field], replaced_count)
  end.

Definition preview_replacements (fields_data : json_arg) (t : template)
    : reply preview :=
  match fields_data with
  | BadJson => InvalidJson
  | JsonObject data =>
      match t with
      | NoTemplate => TemplateNotFound
      | BadTemplate => OtherError
      | Template doc =>
          let template_fields := find_template_fields doc in
          let '(result, replaced_count) :=
            foldl (preview_field data) ([], 0) template_fields in
          let extra_fields : gset string :=
            list_to_set (data.*1) ∖ list_to_set template_fields in
          Shown (Preview result extra_fields replaced_count
                         (length template_fields))
      end
  end.

(** What [generate_document] answers when it got as far as substituting:
    the warning that nothing was replaced, or the saved file with the
    document as saved, the count and the fields listed as replaced. *)
Inductive generated : Type :=
| NoReplacements
| Saved (filename : string) (saved : list Paragraph) (count : nat)
        (replaced_fields : list string).

(** [generate_document(fields_data, filename_prefix)]; [timestamp] is
    [datetime.now().strftime("%Y%m%d_%H%M%S")].  This is a call in which
    [OUTPUT_DIR.mkdir], [paragraph.text = new_text] and [doc.save] return;
    when one of them raises, the answer is the error text. *)
Definition generate_document (fields_data : json_arg) (t : template)
    (filename_prefix timestamp : string) : reply generated :=
  match fields_data with
  | BadJson => InvalidJson
  | JsonObject data =>
      match t with
      | NoTemplate => TemplateNotFound
      | BadTemplate => OtherError
      | Template doc =>
          let st := replace_fields_in_document doc data in
          if replacements_count st =? 0 then Shown NoReplacements
          else
            let filename :=
              if nonempty filename_prefix
              then filename_prefix +:+ "_" +:+ timestamp +:+ ".docx"
              else "documento_" +:+ timestamp +:+ ".docx" in
            let replaced_fields :=
              filter (fun field => dict_in field data = true)
                     (find_template_fields doc) in
            Shown (Saved filename (objects st) (replacements_count st)
                         replaced_fields)
      end
  end.

End ServerNew.

(** ** server-gemini.py *)

Module ServerGemini.
Import PyStr PyRe PyDict Docx.

Definition extract_fields_from_text (fields : gset string) (text : string)
    : gset string :=
  fields ∪ list_to_set (findall re_field text).

Definition find_visit (heap : list Paragraph) (fields : gset string) (p : pid)
    : gset string :=
  match heap !! p with
  | Some para => extract_fields_from_text fields (text para)
  | None => fields
  end.

(** The loops of [find_template_fields]. *)
Definition find_loops {St : Type} (visit : St -> pid -> St)
    (doc : Document) (st : St) : St :=
  let st := for_paragraphs visit st (paragraphs doc) in
  let st := for_tables visit st (tables doc) in
  foldl (fun st section =>
    let st := for_part visit st (header section) in
    let st := for_part visit st (even_page_header section) in
    let st := for_part visit st (first_page_header section) in
    let st := for_part visit st (footer section) in
    let st := for_part visit st (even_page_footer section) in
    for_part visit st (first_page_footer section)) st (sections doc).

Definition find_template_fields (doc : Document) : list string :=
  sorted_list (find_loops (find_visit (heap doc)) doc ∅).

(** The text matched by [r'\{\{' + re.escape(field) + r'\}\}']: the
    escaped field matches itself and nothing else. *)
Definition pattern_of (field : string) : string := "{{" +:+ field +:+ "}}".

Section Substitution.

(** [re.sub] reads its replacement as a template.  A replacement without
    a backslash stands for itself; for one with a backslash,
    [expand_template repl matched] is what the [re] module makes of it
    for a match [matched] of a pattern without groups, [None] when it
    raises [re.error]. *)
Variable expand_template : string -> string -> option string.

(** [re.sub(pattern, repl, s)] for the literal [pattern] above *)
Definition re_sub (pattern repl s : string) : option string :=
  if has_char "\" repl then
    match expand_template repl pattern with
    | Some expansion => Some (str_replace pattern expansion s)
    | None => None
    end
  else Some (str_replace pattern repl s).

(** Body of [for field, value in data_map.items()]; [None] once
    [re.sub] has raised. *)
Definition replace_field (acc : option (string * nat)) (item : string * string)
    : option (string * nat) :=
  match acc with
  | Some (new_text, current_paragraph_replacements) =>
      let pattern := pattern_of item.1 in
      let matches := str_count pattern new_text in
      if 0 <? matches then
        match re_sub pattern item.2 new_text with
        | Some new_text' =>
            Some (new_text', current_paragraph_replacements + matches)
        | None => None
        end
      else acc
  | None => None
  end.

(** The text and count that [_replace_in_paragraph_or_cell] computes
    from [paragraph.text]. *)
Definition replace_in_paragraph_text (data_map : fieldmap)
    (original_text : string) : option (string * nat) :=
  foldl replace_field (Some (original_text, 0)) data_map.

(** [_replace_in_paragraph_or_cell(paragraph, data_map)]; [None] once
    [re.sub] or the assignment [paragraph.text = new_text] has raised, in
    this call or in an earlier one. *)
Definition _replace_in_paragraph_or_cell (data_map : fieldmap)
    (st : option pass) (p : pid)
    : option pass :=
  match st with
  | Some st =>
      match objects st !! p with
      | Some para =>
          match replace_in_paragraph_text data_map (text para) with
          | Some (new_text, current_paragraph_replacements) =>
              if 0 <? current_paragraph_replacements
              then
                match assign_text new_text with
                | Some stored =>
                    Some (Pass (<[p := set_text stored]> (objects st))
                               (replacements_count st
                                + current_paragraph_replacements)
                               (writes st ++ [SetParagraphText p]))
                | None => None
                end
              else Some st
          | None => None
          end
      | None => Some st
      end
  | None => None
  end.

Definition replace_loops {St : Type} (visit : St -> pid -> St)
    (doc : Document) (st : St) : St :=
  let st := for_paragraphs visit st (paragraphs doc) in
  let st := for_tables visit st (tables doc) in
  foldl (fun st section =>
    let st := for_part visit st (header section) in
    let st := for_part visit st (even_page_header section) in
    let st := for_part visit st (first_page_header section) in
    let st := for_part visit st (footer section) in
    let st := for_part visit st (even_page_footer section) in
    for_part visit st (first_page_footer section)) st (sections doc).

Definition replace_fields_in_document (doc : Document) (fields_data : fieldmap)
    : option pass :=
  replace_loops (_replace_in_paragraph_or_cell fields_data) doc
    (Some (Pass (heap doc) 0 [])).

End Substitution.


(** [[^\w\s-]] *)
Definition not_name_char (c : ascii) : bool :=
  negb (isword c || isspace c || Ascii.eqb c "-").

(** [[-\s]] *)
Definition separator_char (c : ascii) : bool := Ascii.eqb c "-" || isspace c.

(** [re.sub(r'[-\s]+', '_', re.sub(r'[^\w\s-]', '', name).strip())]: how
    [generate_document] cleans [filename_prefix] and the student's name. *)
Definition clean_name (name : string) : string :=
  sub_runs separator_char "_" (strip (sub_class_empty not_name_char name)).

(** The file name chosen by [generate_document]; the values of
    [nombre_estudiante] and [nombre] are strings, as every value of the
    FieldMap. *)
Definition filename_of (filename_prefix : string) (data : fieldmap)
    (timestamp : string) : string :=
  if nonempty filename_prefix then
    let clean_prefix := clean_name filename_prefix in
    if nonempty clean_prefix
    then clean_prefix +:+ "_" +:+ timestamp +:+ ".docx"
    else "documento_" +:+ timestamp +:+ ".docx"
  else
    let name :=
      dict_get_default "nombre_estudiante"
        (dict_get_default "nombre" "" data) data in
    if nonempty name
    then clean_name name +:+ "_" +:+ timestamp +:+ ".docx"
    else "documento_" +:+ timestamp +:+ ".docx".

(** [display_value] of the list of processed data: values longer than 100
    characters are cut to 97 and three dots. *)
Definition display_value (value : string) : string :=
  if 100 <? String.length value then take_str 97 value +:+ "..." else value.

Record preview : Type := Preview {
  field_lines : list preview_line;
  extra_fields : gset string;
  replaced_fields : list string;
  template_fields : list string
}.

(** Body of [for field in template_fields] in [preview_replacements]. *)
Definition preview_field (data : fieldmap)
    (acc : list preview_line * list string) (field : string)
    : list preview_line * list string :=
  let '(result, replaced_fields) := acc in
  match dict_get field data with
  | Some value => (result ++ [WithValue field value], replaced_fields ++ [field])
  | None => (result ++ [WithoutValue field], replaced_fields)
  end.

Definition preview_replacements (fields_data : json_arg) (t : template)
    : reply preview :=
  match fields_data with
  | BadJson => InvalidJson
  | JsonObject data =>
      match t with
      | NoTemplate => TemplateNotFound
      | BadTemplate => OtherError
      | Template doc =>
          let template_fields := find_template_fields doc in
          let '(result, replaced_fields) :=
            foldl (preview_field data) ([], []) template_fields in
          let extra_fields : gset string :=
            list_to_set (data.*1) ∖ list_to_set template_fields in
          Shown (Preview result extra_fields replaced_fields template_fields)
      end
  end.

(** What the regular answer of [generate_document] is built from. *)
Record generated : Type := Generated {
  filename : string;
  saved : list Paragraph;
  replacements : nat;
  fields_processed : nat;
  data_shown : list (string * string)
}.

Section Tools.
Variable expand_template : string -> string -> option string.

(** The file system of a call: whether [OUTPUT_DIR.mkdir(exist_ok=True)]
    returns, and whether [doc.save(OUTPUT_DIR / filename)] does. *)
Variable mkdir_ok : bool.
Variable save_ok : string -> bool.

(** [generate_document(fields_data, filename_prefix)]; [timestamp] is
    [datetime.now().strftime("%Y%m%d_%H%M%S")].  An error raised by
    [mkdir], [Document], [re.sub], [paragraph.text = new_text] or
    [doc.save] ends in [except Exception]. *)
Definition generate_document (fields_data : json_arg) (t : template)
    (filename_prefix timestamp : string) : reply generated :=
  match fields_data with
  | BadJson => InvalidJson
  | JsonObject data =>
      match t with
      | NoTemplate => TemplateNotFound
      | BadTemplate => OtherError
      | Template doc =>
          if mkdir_ok then
            match replace_fields_in_document expand_template doc data with
            | Some st =>
                let filename := filename_of filename_prefix data timestamp in
                if save_ok filename then
                  Shown (Generated filename
                                   (objects st) (replacements_count st)
                                   (length data)
                                   (map (fun item =>
                                           (item.1, display_value item.2))
                                        data))
                else OtherError
            | None => OtherError
            end
          else OtherError
      end
  end.
End Tools.

End ServerGemini.

(** ** server.py and server-new.py with the text setter of python-docx *)

(** The passes of [Server] and [ServerNew] above store an assigned text as
    it is.  Here [run.text = new_text] and [paragraph.text = new_text] are
    done by [assign_text]: a pass is [None] once an assignment has raised
    [ValueError], and a run holds the text as [run.text] gives it back. *)

Module ServerDocx.
Import PyStr PyRe PyDict Docx.

(** Body of [for run in paragraph.runs] in [replace_in_runs]. *)
Definition replace_run (fields_data : fieldmap) (p : pid)
    (acc : option (Paragraph * nat * list write)) (run : string)
    : option (Paragraph * nat * list write) :=
  match acc with
  | Some (done, count, ws) =>
      let '(new_text, count') := Server.replace_in_run fields_data count run in
      match assign_text new_text with
      | Some stored =>
          Some (done ++ [stored], count', ws ++ [SetRunText p (length done)])
      | None => None
      end
  | None => None
  end.

(** [replace_in_runs(paragraph, fields_data)] *)
Definition replace_in_runs (fields_data : fieldmap) (p : pid) (runs : Paragraph)
    : option (Paragraph * nat * list write) :=
  foldl (replace_run fields_data p) (Some ([], 0, [])) runs.

Definition replace_visit (fields_data : fieldmap) (st : option pass) (p : pid)
    : option pass :=
  match st with
  | Some st =>
      match objects st !! p with
      | Some para =>
          match replace_in_runs fields_data p para with
          | Some (runs, count, ws) =>
              Some (Pass (<[p := runs]> (objects st))
                         (replacements_count st + count) (writes st ++ ws))
          | None => None
          end
      | None => Some st
      end
  | None => None
  end.

Definition replace_fields_in_document (doc : Document) (fields_data : fieldmap)
    : option pass :=
  Server.replace_loops (replace_visit fields_data) doc
    (Some (Pass (heap doc) 0 [])).

End ServerDocx.

Module ServerNewDocx.
Import PyStr PyRe PyDict Docx.

(** Body of the paragraph loops of [replace_fields_in_document]. *)
Definition replace_visit (fields_data : fieldmap) (st : option pass) (p : pid)
    : option pass :=
  match st with
  | Some st =>
      match objects st !! p with
      | Some para =>
          let '(new_text, count) :=
            ServerNew.replace_in_text fields_data (text para) in
          if 0 <? count then
            match assign_text new_text with
            | Some stored =>
                Some (Pass (<[p := set_text stored]> (objects st))
                           (replacements_count st + count)
                           (writes st ++ [SetParagraphText p]))
            | None => None
            end
          else Some st
      | None => Some st
      end
  | None => None
  end.

Definition replace_fields_in_document (doc : Document) (fields_data : fieldmap)
    : option pass :=
  ServerNew.replace_loops (replace_visit fields_data) doc
    (Some (Pass (heap doc) 0 [])).

End ServerNewDocx.

(** ** Vocabulary of the specification *)

Module Spec.
Import PyStr PyRe PyDict Docx.

(** Every character of [s] is in the class [cls]. *)
Fixpoint all_chars (cls : ascii -> bool) (s : string) : bool :=
  match s with
  | String c s' => cls c && all_chars cls s'
  | EmptyString => true
  end.

(** The capture state after the matcher has read [pre]. *)
Definition eats (pre : string) (st : caps) : caps :=
  if recording st then Caps true (group1 st +:+ pre) else st.

(** The last character of a text, as a text. *)
Fixpoint last_str (s : string) : string :=
  match s with
  | String c s' =>
      match s' with
      | EmptyString => String c EmptyString
      | _ => last_str s'
      end
  | EmptyString => EmptyString
  end.

(** What group 1 of [re_field_ws] holds for a token with inner text
    [inner]: the stripped text, or the last blank when there is nothing
    else. *)
Definition captured_name (inner : string) : string :=
  if all_chars isspace inner then last_str inner else strip inner.

(** A text that cannot close a token: it holds no [}}] and does not start
    with [}]. *)
Definition open_tail (tail : string) : Prop :=
  contains "}}" tail = false /\ String.prefix "}" tail = false.

(** A text in which [{{] or [}}] does not occur. *)
Definition no_token (t : string) : Prop :=
  contains "{{" t = false \/ contains "}}" t = false.

(** No value of the FieldMap holds a backslash. *)
Definition plain_values (m : fieldmap) : Prop :=
  Forall (fun item => has_char "\" item.2 = false) m.

(** [discover(text)]: the names found in one text, starting from an
    empty set. *)
Definition discover_py (text : string) : gset string :=
  Server.extract_fields_from_text ∅ text.
Definition discover_new (text : string) : gset string :=
  ServerNew.extract_fields ∅ text.

Definition part_regions (part : option (list pid)) : list pid :=
  default [] part.

Definition body_regions (doc : Document) : list pid := paragraphs doc.

Definition table_regions (doc : Document) : list pid :=
  concat (concat (concat (tables doc))).

(** The order of the specification: primary, first-page and even-page
    header, then primary, first-page and even-page footer. *)
Definition spec_section_regions (s : Section_) : list pid :=
  part_regions (header s) ++ part_regions (first_page_header s)
  ++ part_regions (even_page_header s) ++ part_regions (footer s)
  ++ part_regions (first_page_footer s) ++ part_regions (even_page_footer s).

Definition spec_enumerate_regions (doc : Document) : list pid :=
  body_regions doc ++ table_regions doc
  ++ concat (spec_section_regions <$> sections doc).

(** The order of server-gemini.py: the even-page variant comes before the
    first-page variant. *)
Definition gemini_section_regions (s : Section_) : list pid :=
  part_regions (header s) ++ part_regions (even_page_header s)
  ++ part_regions (first_page_header s) ++ part_regions (footer s)
  ++ part_regions (even_page_footer s) ++ part_regions (first_page_footer s).

Definition gemini_enumerate_regions (doc : Document) : list pid :=
  body_regions doc ++ table_regions doc
  ++ concat (gemini_section_regions <$> sections doc).

(** server.py and server-new.py: primary header and footer only. *)
Definition primary_section_regions (s : Section_) : list pid :=
  part_regions (header s) ++ part_regions (footer s).

Definition primary_enumerate_regions (doc : Document) : list pid :=
  body_regions doc ++ table_regions doc
  ++ concat (primary_section_regions <$> sections doc).

(** Texts that XML can hold: the values of a FieldMap, the runs of a
    heap.  A document read from a file is such a heap. *)
Definition xml_values (m : fieldmap) : Prop :=
  Forall (fun item => xml_text item.2 = true) m.

Definition xml_heap (heap : list Paragraph) : Prop :=
  Forall (Forall (fun run => xml_text run = true)) heap.

(** What one visit of a substitution pass makes of a paragraph: the
    count it adds for it, and the paragraph it leaves when no assignment
    raises. *)
Definition server_new_count (m : fieldmap) (para : Paragraph) : nat :=
  (ServerNew.replace_in_text m (text para)).2.

Definition server_new_paragraph (m : fieldmap) (para : Paragraph) : Paragraph :=
  if 0 <? server_new_count m para
  then set_text (read_back (ServerNew.replace_in_text m (text para)).1)
  else para.

Definition gemini_count (expand : string -> string -> option string)
    (m : fieldmap) (para : Paragraph) : nat :=
  from_option snd 0 (ServerGemini.replace_in_paragraph_text expand m (text para)).

Definition gemini_paragraph (expand : string -> string -> option string)
    (m : fieldmap) (para : Paragraph) : Paragraph :=
  match ServerGemini.replace_in_paragraph_text expand m (text para) with
  | Some (new_text, count) =>
      if 0 <? count then set_text (read_back new_text) else para
  | None => para
  end.




(** A pass that has not raised, over paragraphs that XML can hold. *)
Definition returned_xml (st : option pass) : Prop :=
  exists s, st = Some s /\ xml_heap (objects s).

(** The count of the paragraph that [p] refers to, 0 when there is none. *)
Definition count_at (c : Paragraph -> nat) (heap : list Paragraph) (p : pid)
    : nat :=
  from_option c 0 (heap !! p).

(** The class [[\w\s-]] that the first [re.sub] of [clean_name] keeps. *)
Definition name_char (c : ascii) : bool :=
  isword c || isspace c || Ascii.eqb c "-".

End Spec.

(** * Properties *)

Import PyStr PyRe PyDict Docx Spec.

#[local] Arguments String.append : simpl nomatch.
#[local] Arguments Ascii.eqb : simpl never.
#[local] Arguments isspace : simpl never.
#[local] Arguments not_brace : simpl never.
#[local] Arguments not_rbrace : simpl never.

(** ** Strings *)

Lemma append_nil_r (s : string) : s +:+ "" = s.
Proof. induction s as [|c s IH]; simpl; [done|by rewrite IH]. Qed.

Lemma append_assoc (a b c : string) : (a +:+ b) +:+ c = a +:+ (b +:+ c).
Proof. induction a as [|x a IH]; simpl; [done|by rewrite IH]. Qed.

Lemma length_append (a b : string) :
  String.length (a +:+ b) = String.length a + String.length b.
Proof. induction a as [|x a IH]; simpl; [done|by rewrite IH]. Qed.

Lemma prefix_append (a b : string) : String.prefix a (a +:+ b) = true.
Proof.
  induction a as [|x a IH]; simpl; [by destruct b|].
  destruct (ascii_dec x x); [done|congruence].
Qed.

Lemma prefix_split (a s : string) :
  String.prefix a s = true -> exists b, s = a +:+ b.
Proof.
  revert s. induction a as [|x a IH]; intros s H.
  - by exists s.
  - destruct s as [|y s]; simpl in H; [done|].
    destruct (ascii_dec x y) as [->|]; [|done].
    destruct (IH _ H) as [b ->]. by exists b.
Qed.

Lemma contains_nil (sub : string) : contains sub "" = String.prefix sub "".
Proof. unfold contains. by rewrite orb_false_r. Qed.

Lemma contains_cons (sub : string) (c : ascii) (s : string) :
  contains sub (String c s) = String.prefix sub (String c s) || contains sub s.
Proof. done. Qed.

Lemma contains_split (sub s : string) :
  contains sub s = true <-> exists pre post, s = pre +:+ sub +:+ post.
Proof.
  split.
  - induction s as [|c s IH]; intros H.
    + rewrite contains_nil in H. apply prefix_split in H as [b ->].
      by exists "", b.
    + rewrite contains_cons in H. apply orb_true_iff in H as [H|H].
      * apply prefix_split in H as [b ->]. by exists "", b.
      * destruct (IH H) as (pre & post & ->). by exists (String c pre), post.
  - intros (pre & post & ->). induction pre as [|c pre IH].
    + change ("" +:+ sub +:+ post) with (sub +:+ post).
      destruct (sub +:+ post) eqn:E.
      * rewrite contains_nil, <- E. apply prefix_append.
      * rewrite contains_cons, <- E, prefix_append. done.
    + change (String c pre +:+ sub +:+ post) with (String c (pre +:+ sub +:+ post)).
      by rewrite contains_cons, IH, orb_true_r.
Qed.
(** ** The matcher *)

Lemma eats_nil (st : caps) : eats "" st = st.
Proof. unfold eats. destruct st as [[] g]; simpl; [by rewrite append_nil_r|done]. Qed.

Lemma eats_cons (c : ascii) (pre : string) (st : caps) :
  eats (String c pre) st = eats pre (eat c st).
Proof.
  unfold eats, eat. destruct st as [[] g]; simpl; [|done].
  by rewrite append_assoc.
Qed.

Lemma rep_sound {R : Type} cls greedy (k : caps -> string -> option R) st s r :
  rep cls greedy k st s = Some r ->
  exists pre post, s = pre +:+ post /\ all_chars cls pre = true
                   /\ k (eats pre st) post = Some r.
Proof.
  revert st. induction s as [|c s IH]; intros st H; simpl in H.
  - exists "", "". by rewrite eats_nil.
  - assert (Hstop : k st (String c s) = Some r ->
      exists pre post, String c s = pre +:+ post /\ all_chars cls pre = true
                       /\ k (eats pre st) post = Some r).
    { intros Hk. exists "", (String c s). by rewrite eats_nil. }
    assert (Hmore : cls c = true -> rep cls greedy k (eat c st) s = Some r ->
      exists pre post, String c s = pre +:+ post /\ all_chars cls pre = true
                       /\ k (eats pre st) post = Some r).
    { intros Hc Hr. destruct (IH _ Hr) as (pre & post & -> & Hall & Hk).
      exists (String c pre), post. simpl. rewrite Hc, eats_cons. done. }
    destruct (cls c) eqn:Hc; [|by auto].
    destruct greedy.
    + destruct (rep cls true k (eat c st) s) eqn:Hr; [|by auto].
      injection H as ->. auto.
    + destruct (k st (String c s)) eqn:Hk; [|by auto].
      injection H as ->. auto.
Qed.

Lemma space_not_brace (c : ascii) : isspace c = true -> not_brace c = true.
Proof. destruct c as [[] [] [] [] [] [] [] []]; done. Qed.

Lemma all_chars_app cls (a b : string) :
  all_chars cls (a +:+ b) = all_chars cls a && all_chars cls b.
Proof. induction a as [|c a IH]; simpl; [done|]. by rewrite IH, andb_assoc. Qed.

Lemma all_chars_impl (cls1 cls2 : ascii -> bool) (s : string) :
  (forall c, cls1 c = true -> cls2 c = true) ->
  all_chars cls1 s = true -> all_chars cls2 s = true.
Proof.
  intros Himp. induction s as [|c s IH]; simpl; [done|].
  intros [Hc Hs]%andb_true_iff. by rewrite (Himp _ Hc), IH.
Qed.

(** A match of [re_field] is [{{], a name without [}], and [}}]. *)
Lemma match_field_sound (s g rest : string) :
  match_at re_field s = Some (g, rest) ->
  s = "{{" +:+ g +:+ "}}" +:+ rest /\ g <> "" /\ all_chars not_rbrace g = true.
Proof.
  unfold match_at, re_field. intros H.
  destruct (exec _ _ s) as [[st rest']|] eqn:E; [|done].
  injection H as <- ->.
  destruct s as [|c1 [|c2 [|d s]]]; simpl in E; try done.
  - by destruct (Ascii.eqb "{" c1).
  - destruct (Ascii.eqb_spec "{" c1) as [<-|]; [|done].
    by destruct (Ascii.eqb "{" c2).
  - destruct (Ascii.eqb_spec "{" c1) as [<-|]; [|done].
    destruct (Ascii.eqb_spec "{" c2) as [<-|]; [|done].
    destruct (not_rbrace d) eqn:Hd; [|done].
    apply rep_sound in E as (pre & post & -> & Hall & E).
    unfold eat, eats in E. simpl in E.
    destruct post as [|e1 [|e2 post]]; simpl in E; try done.
    { by destruct (Ascii.eqb "}" e1). }
    destruct (Ascii.eqb_spec "}" e1) as [<-|]; [|done].
    destruct (Ascii.eqb_spec "}" e2) as [<-|]; [|done].
    injection E as <- <-. simpl. by rewrite Hd, Hall.
Qed.

(** A match of [re_field_ws] is [{{], white space, a name without braces,
    white space, and [}}]. *)
Lemma match_field_ws_sound (s g rest : string) :
  match_at re_field_ws s = Some (g, rest) ->
  exists ws1 ws2,
    s = "{{" +:+ ws1 +:+ g +:+ ws2 +:+ "}}" +:+ rest
    /\ all_chars isspace ws1 = true /\ all_chars isspace ws2 = true
    /\ g <> "" /\ all_chars not_brace g = true.
Proof.
  unfold match_at, re_field_ws. intros H.
  destruct (exec _ _ s) as [[st rest']|] eqn:E; [|done].
  injection H as <- ->.
  destruct s as [|c1 [|c2 s]]; simpl in E; try done.
  { by destruct (Ascii.eqb "{" c1). }
  destruct (Ascii.eqb_spec "{" c1) as [<-|]; [|done].
  destruct (Ascii.eqb_spec "{" c2) as [<-|]; [|done].
  apply rep_sound in E as (ws1 & s1 & -> & Hws1 & E).
  simpl in E. destruct s1 as [|d s1]; [done|].
  destruct (not_brace d) eqn:Hd; [|done].
  apply rep_sound in E as (body & s2 & -> & Hbody & E).
  unfold eat, eats in E. simpl in E.
  apply rep_sound in E as (ws2 & s3 & -> & Hws2 & E).
  unfold eats in E. simpl in E.
  destruct s3 as [|e1 [|e2 s3]]; simpl in E; try done.
  { by destruct (Ascii.eqb "}" e1). }
  destruct (Ascii.eqb_spec "}" e1) as [<-|]; [|done].
  destruct (Ascii.eqb_spec "}" e2) as [<-|]; [|done].
  injection E as <- <-. exists ws1, ws2. simpl. rewrite Hd, Hbody.
  by repeat split.
Qed.

Lemma rbrace_not_space : isspace "}" = false.
Proof. done. Qed.

Lemma rbrace_not_brace : not_brace "}" = false.
Proof. done. Qed.

Lemma not_brace_not_rbrace (c : ascii) :
  not_brace c = true -> Ascii.eqb "}" c = false.
Proof.
  unfold not_brace. intros [_ H]%andb_true_iff.
  rewrite Ascii.eqb_sym. by destruct (Ascii.eqb c "}").
Qed.

Lemma append_cons (c : ascii) (a b : string) :
  String c a +:+ b = String c (a +:+ b).
Proof. done. Qed.

Lemma rep_cons {R : Type} cls greedy (k : caps -> string -> option R) st c s :
  rep cls greedy k st (String c s)
  = if cls c then
      if greedy then
        match rep cls greedy k (eat c st) s with
        | Some r => Some r
        | None => k st (String c s)
        end
      else
        match k st (String c s) with
        | Some r => Some r
        | None => rep cls greedy k (eat c st) s
        end
    else k st (String c s).
Proof. done. Qed.

(** After the name: [\s*\}\}] succeeds on white space followed by [}}]. *)
Lemma close_ok (g x rest : string) :
  all_chars isspace x = true ->
  rep isspace true (exec [Lit "}"; Lit "}"]) (Caps false g) (x +:+ "}}" +:+ rest)
  = Some (Caps false g, rest).
Proof.
  induction x as [|c x IH]; intros H; [done|].
  cbn [all_chars] in H. apply andb_true_iff in H as [Hc Hx].
  rewrite append_cons, rep_cons, Hc. unfold eat. cbn [recording].
  by rewrite (IH Hx).
Qed.

(** It fails as long as a character of the name is still ahead. *)
Lemma close_fail (g x rest : string) :
  all_chars not_brace x = true -> all_chars isspace x = false ->
  rep isspace true (exec [Lit "}"; Lit "}"]) (Caps false g) (x +:+ "}}" +:+ rest)
  = None.
Proof.
  induction x as [|c x IH]; [done|].
  intros H Hsp. cbn [all_chars] in H, Hsp. apply andb_true_iff in H as [Hc Hx].
  rewrite append_cons, rep_cons. unfold eat. cbn [recording].
  assert (exec [Lit "}"; Lit "}"] (Caps false g) (String c (x +:+ "}}" +:+ rest))
          = None) as ->.
  { cbn [exec]. by rewrite (not_brace_not_rbrace _ Hc). }
  destruct (isspace c) eqn:Hcs; [|done].
  by rewrite IH.
Qed.

Lemma rstrip_nil_iff (s : string) : rstrip s = "" <-> all_chars isspace s = true.
Proof.
  induction s as [|c s IH]; simpl; [done|].
  destruct (rstrip s) eqn:E.
  - destruct (isspace c); simpl; [|done]. by rewrite <- IH.
  - destruct (all_chars isspace s); [|by rewrite andb_false_r].
    by destruct IH as [_ IH]; specialize (IH eq_refl).
Qed.

Lemma rstrip_cons (c : ascii) (s : string) :
  rstrip (String c s)
  = if all_chars isspace (String c s) then "" else String c (rstrip s).
Proof.
  destruct (all_chars isspace (String c s)) eqn:E.
  - by apply rstrip_nil_iff.
  - simpl in *. destruct (rstrip s) eqn:Er; [|done].
    apply rstrip_nil_iff in Er. rewrite Er, andb_true_r in E. by rewrite E.
Qed.

(** The lazy name [[^{}]+?] stops as soon as only white space and [}}]
    remain: what it adds to the group is the text without its trailing
    white space. *)
Lemma lazy_name (g0 x rest : string) :
  all_chars not_brace x = true ->
  rep not_brace false (exec [GClose; Star isspace true; Lit "}"; Lit "}"])
      (Caps true g0) (x +:+ "}}" +:+ rest)
  = Some (Caps false (g0 +:+ rstrip x), rest).
Proof.
  revert g0. induction x as [|c x IH]; intros g0 H.
  - simpl. by rewrite append_nil_r.
  - assert (Hk : forall g s,
      exec [GClose; Star isspace true; Lit "}"; Lit "}"] (Caps true g) s
      = rep isspace true (exec [Lit "}"; Lit "}"]) (Caps false g) s) by done.
    pose proof H as H'. cbn [all_chars] in H'. apply andb_true_iff in H' as [Hc Hx].
    rewrite rstrip_cons, append_cons, rep_cons, Hc, Hk, <- append_cons.
    destruct (all_chars isspace (String c x)) eqn:Hsp.
    + rewrite close_ok by done. by rewrite append_nil_r.
    + rewrite close_fail by done. unfold eat. cbn [recording group1].
      rewrite (IH _ Hx). by rewrite append_assoc.
Qed.

(** The whole pattern on a token whose inner text is not only white space:
    the group is the inner text stripped. *)
Lemma match_field_ws_token (inner rest : string) :
  all_chars not_brace inner = true -> all_chars isspace inner = false ->
  match_at re_field_ws ("{{" +:+ inner +:+ "}}" +:+ rest)
  = Some (strip inner, rest).
Proof.
  intros Hnb Hsp. unfold match_at, strip.
  enough (exec re_field_ws (Caps false "") ("{{" +:+ inner +:+ "}}" +:+ rest)
          = Some (Caps false (rstrip (lstrip inner)), rest)) as -> by done.
  change (exec re_field_ws (Caps false "") ("{{" +:+ inner +:+ "}}" +:+ rest))
    with (rep isspace true
            (exec [GOpen; Plus not_brace false; GClose; Star isspace true;
                   Lit "}"; Lit "}"])
            (Caps false "") (inner +:+ "}}" +:+ rest)).
  induction inner as [|c inner IH]; [done|].
  cbn [all_chars] in Hnb, Hsp. apply andb_true_iff in Hnb as [Hc Hnb].
  rewrite append_cons, rep_cons. cbn [lstrip]. unfold eat. cbn [recording].
  destruct (isspace c) eqn:Hcs.
  - by rewrite IH.
  - cbn [exec]. rewrite Hc. unfold eat. cbn [recording group1].
    change ("" +:+ String c "") with (String c "").
    rewrite lazy_name by done. rewrite rstrip_cons. cbn [all_chars].
    by rewrite Hcs.
Qed.

(** ** [re.findall] *)

Lemma findall_from_elem (p : list atom) (skip : nat) (s g : string) :
  g ∈ findall_from p skip s ->
  exists pre s' rest, s = pre +:+ s' /\ match_at p s' = Some (g, rest).
Proof.
  revert skip. induction s as [|c s IH]; intros skip H.
  - simpl in H. destruct skip; [|by apply elem_of_nil in H].
    destruct (match_at p "") as [[g' rest]|] eqn:E; [|by apply elem_of_nil in H].
    apply list_elem_of_singleton in H as ->. by exists "", "", rest.
  - assert (Hs : forall k, g ∈ findall_from p k s ->
        exists pre s' rest,
          String c s = pre +:+ s' /\ match_at p s' = Some (g, rest)).
    { intros k Hk. destruct (IH _ Hk) as (pre & s' & rest & -> & Hm).
      by exists (String c pre), s', rest. }
    simpl in H. destruct skip; [|by eauto].
    destruct (match_at p (String c s)) as [[g' rest]|] eqn:E; [|by eauto].
    apply elem_of_cons in H as [->|H]; [|by eauto].
    by exists "", (String c s), rest.
Qed.

Lemma findall_from_nil (p : list atom) (skip : nat) (s : string) :
  (forall pre s', s = pre +:+ s' -> match_at p s' = None) ->
  findall_from p skip s = [].
Proof.
  intros H. destruct (findall_from p skip s) as [|g l] eqn:E; [done|].
  assert (Hg : g ∈ findall_from p skip s) by (rewrite E; left).
  apply findall_from_elem in Hg as (pre & s' & rest & Hs & Hm).
  by rewrite (H _ _ Hs) in Hm.
Qed.


(** ** Texts without a complete token *)

Lemma contains_trans (a b t : string) :
  contains a b = true -> contains b t = true -> contains a t = true.
Proof.
  intros (p1 & q1 & ->)%contains_split (p2 & q2 & ->)%contains_split.
  apply contains_split. exists (p2 +:+ p1), (q1 +:+ q2).
  by rewrite !append_assoc.
Qed.

Lemma contains_false_sub (a b t : string) :
  contains a b = true -> contains a t = false -> contains b t = false.
Proof.
  intros Hab Hat. destruct (contains b t) eqn:E; [|done].
  by rewrite (contains_trans _ _ _ Hab E) in Hat.
Qed.

Lemma token_has_open (x rest : string) : contains "{{" ("{{" +:+ x +:+ rest) = true.
Proof. apply contains_split. by exists "", (x +:+ rest). Qed.

Lemma token_has_close (x rest : string) :
  contains "}}" ("{{" +:+ x +:+ "}}" +:+ rest) = true.
Proof. apply contains_split. exists ("{{" +:+ x), rest. by rewrite !append_assoc. Qed.

Lemma no_token_sub (b t : string) :
  contains "{{" b = true -> contains "}}" b = true ->
  no_token t -> contains b t = false.
Proof. intros Ho Hc [H|H]; eauto using contains_false_sub. Qed.

Lemma contains_suffix (a pre s : string) :
  contains a s = true -> contains a (pre +:+ s) = true.
Proof.
  intros (p & q & ->)%contains_split. apply contains_split.
  exists (pre +:+ p), q. by rewrite !append_assoc.
Qed.

Lemma no_token_suffix (pre s t : string) :
  t = pre +:+ s -> no_token t -> no_token s.
Proof.
  intros -> [H|H]; [left|right].
  - destruct (contains "{{" s) eqn:E; [|done].
    by rewrite (contains_suffix _ pre _ E) in H.
  - destruct (contains "}}" s) eqn:E; [|done].
    by rewrite (contains_suffix _ pre _ E) in H.
Qed.

Lemma no_token_match_field (t : string) :
  no_token t -> match_at re_field t = None.
Proof.
  intros H. destruct (match_at re_field t) as [[g rest]|] eqn:E; [|done].
  apply match_field_sound in E as (-> & _ & _).
  destruct H as [H|H].
  - by rewrite token_has_open in H.
  - by rewrite (token_has_close g rest) in H.
Qed.

Lemma no_token_match_field_ws (t : string) :
  no_token t -> match_at re_field_ws t = None.
Proof.
  intros H. destruct (match_at re_field_ws t) as [[g rest]|] eqn:E; [|done].
  apply match_field_ws_sound in E as (ws1 & ws2 & -> & _).
  destruct H as [H|H].
  - by rewrite token_has_open in H.
  - pose proof (token_has_close (ws1 +:+ g +:+ ws2) rest) as Hc.
    rewrite !append_assoc in Hc. by rewrite Hc in H.
Qed.

Lemma no_token_findall_field (t : string) : no_token t -> findall re_field t = [].
Proof.
  intros H. apply findall_from_nil. intros pre s Hs.
  eauto using no_token_match_field, no_token_suffix.
Qed.

Lemma no_token_findall_field_ws (t : string) :
  no_token t -> findall re_field_ws t = [].
Proof.
  intros H. apply findall_from_nil. intros pre s Hs.
  eauto using no_token_match_field_ws, no_token_suffix.
Qed.

(** ** Substitution without a matching key *)

Lemma server_replace_in_run_no_match (m : fieldmap) (n : nat) (t : string) :
  (forall k, k ∈ m.*1 -> contains (Server.pattern_of k) t = false) ->
  Server.replace_in_run m n t = (t, n).
Proof.
  unfold Server.replace_in_run. induction m as [|[k v] m IH]; intros H; [done|].
  cbn [foldl]. unfold Server.replace_field at 2. cbn [fst snd].
  rewrite (H k) by (simpl; left). apply IH.
  intros k' Hk'. apply H. simpl. by right.
Qed.

Lemma server_new_replace_fields_no_key (m : fieldmap) (fs : list string)
    (acc : string * nat) :
  (forall f, f ∈ fs -> dict_in (strip f) m = false) ->
  foldl (ServerNew.replace_field m) acc fs = acc.
Proof.
  induction fs as [|f fs IH]; intros H; [done|].
  cbn [foldl]. assert (ServerNew.replace_field m acc f = acc) as ->.
  { specialize (H f ltac:(left)). unfold dict_in in H.
    unfold ServerNew.replace_field. destruct acc as [t n].
    by destruct (dict_get (strip f) m). }
  apply IH. intros f' Hf'. apply H. by right.
Qed.

Lemma server_new_replace_in_text_no_key (m : fieldmap) (t : string) :
  (forall f, f ∈ findall re_field_ws t -> dict_in (strip f) m = false) ->
  ServerNew.replace_in_text m t = (t, 0).
Proof. apply server_new_replace_fields_no_key. Qed.

Lemma pattern_of_has_open (k : string) : contains "{{" (Server.pattern_of k) = true.
Proof. apply token_has_open. Qed.

Lemma pattern_of_has_close (k : string) : contains "}}" (Server.pattern_of k) = true.
Proof. apply (token_has_close k ""). Qed.

Lemma no_token_server_run (m : fieldmap) (n : nat) (t : string) :
  no_token t -> Server.replace_in_run m n t = (t, n).
Proof.
  intros H. apply server_replace_in_run_no_match. intros k _.
  apply no_token_sub; auto using pattern_of_has_open, pattern_of_has_close.
Qed.

Lemma no_token_server_new (m : fieldmap) (t : string) :
  no_token t -> ServerNew.replace_in_text m t = (t, 0).
Proof.
  intros H. unfold ServerNew.replace_in_text.
  by rewrite no_token_findall_field_ws.
Qed.

(** ** Discovery as a set *)

Lemma discover_py_elem (t g : string) :
  g ∈ discover_py t <-> g ∈ findall re_field t.
Proof.
  unfold discover_py, Server.extract_fields_from_text.
  rewrite elem_of_union, elem_of_list_to_set. split; [|by right].
  by intros [?%elem_of_empty|?].
Qed.

Lemma discover_new_elem (t g : string) :
  g ∈ discover_new t <-> g ∈ findall re_field_ws t.
Proof.
  unfold discover_new, ServerNew.extract_fields.
  rewrite elem_of_union, elem_of_list_to_set. split; [|by right].
  by intros [?%elem_of_empty|?].
Qed.

Lemma discover_py_no_token (t : string) : no_token t -> discover_py t = ∅.
Proof.
  intros H. apply set_eq. intros g.
  rewrite discover_py_elem, no_token_findall_field by done.
  split; [by intros ?%elem_of_nil|by intros ?%elem_of_empty].
Qed.

Lemma discover_new_no_token (t : string) : no_token t -> discover_new t = ∅.
Proof.
  intros H. apply set_eq. intros g.
  rewrite discover_new_elem, no_token_findall_field_ws by done.
  split; [by intros ?%elem_of_nil|by intros ?%elem_of_empty].
Qed.

Lemma discover_py_name (t g : string) :
  g ∈ discover_py t -> g <> "" /\ all_chars not_rbrace g = true.
Proof.
  intros (pre & s & rest & _ & Hm)%discover_py_elem%findall_from_elem.
  by apply match_field_sound in Hm as (_ & ? & ?).
Qed.

Lemma discover_new_name (t g : string) :
  g ∈ discover_new t -> g <> "" /\ all_chars not_brace g = true.
Proof.
  intros (pre & s & rest & _ & Hm)%discover_new_elem%findall_from_elem.
  by apply match_field_ws_sound in Hm as (? & ? & _ & _ & _ & ? & ?).
Qed.

(** The end of a brace-free run is determined by the text. *)
Lemma run_end_unique cls (a b : string) (c d : ascii) (r r' : string) :
  all_chars cls a = true -> all_chars cls b = true ->
  cls c = false -> cls d = false ->
  a +:+ String c r = b +:+ String d r' -> a = b /\ c = d /\ r = r'.
Proof.
  revert b. induction a as [|x a IH]; intros [|y b] Ha Hb Hc Hd E;
    cbn [all_chars] in Ha, Hb.
  - by injection E.
  - injection E as -> _. apply andb_true_iff in Hb as [Hy _]. congruence.
  - injection E as -> _. apply andb_true_iff in Ha as [Hx _]. congruence.
  - rewrite !append_cons in E. injection E as -> E.
    apply andb_true_iff in Ha as [_ Ha]. apply andb_true_iff in Hb as [_ Hb].
    by destruct (IH b Ha Hb Hc Hd E) as (-> & -> & ->).
Qed.

(** No match of [re_field_ws] starts at an open [{{] that runs into
    another brace opening. *)
Lemma nested_open_no_match (x rest : string) :
  all_chars not_brace x = true ->
  match_at re_field_ws ("{{" +:+ x +:+ "{" +:+ rest) = None.
Proof.
  intros Hx. destruct (match_at _ _) as [[g rest']|] eqn:E; [|done].
  apply match_field_ws_sound in E as (ws1 & ws2 & E & H1 & H2 & _ & Hg).
  injection E as E. rewrite <- !append_assoc in E.
  assert (all_chars not_brace ((ws1 +:+ g) +:+ ws2) = true) as Hin.
  { rewrite !all_chars_app, Hg.
    by rewrite !(all_chars_impl isspace not_brace _ space_not_brace). }
  assert (Hl : not_brace "{" = false) by done.
  assert (Hr : not_brace "}" = false) by done.
  by destruct (run_end_unique not_brace _ _ _ _ _ _ Hx Hin Hl Hr E) as (_ & ? & _).
Qed.

Lemma discover_py_singleton (t g : string) :
  findall re_field t = [g] -> discover_py t = {[ g ]}.
Proof.
  intros H. apply set_eq. intros x.
  by rewrite discover_py_elem, H, list_elem_of_singleton, elem_of_singleton.
Qed.

Lemma discover_new_singleton (t g : string) :
  findall re_field_ws t = [g] -> discover_new t = {[ g ]}.
Proof.
  intros H. apply set_eq. intros x.
  by rewrite discover_new_elem, H, list_elem_of_singleton, elem_of_singleton.
Qed.

Lemma discover_py_empty (t : string) : findall re_field t = [] -> discover_py t = ∅.
Proof.
  intros H. apply set_eq. intros x. rewrite discover_py_elem, H.
  split; [by intros ?%elem_of_nil|by intros ?%elem_of_empty].
Qed.

Lemma discover_new_empty (t : string) :
  findall re_field_ws t = [] -> discover_new t = ∅.
Proof.
  intros H. apply set_eq. intros x. rewrite discover_new_elem, H.
  split; [by intros ?%elem_of_nil|by intros ?%elem_of_empty].
Qed.

(** ** Dictionary lookups *)

Lemma dict_in_key (k : string) (m : fieldmap) : k ∈ m.*1 -> dict_in k m = true.
Proof.
  unfold dict_in. induction m as [|[k' v] m IH]; simpl.
  - by intros ?%elem_of_nil.
  - intros [->|H]%elem_of_cons.
    + by rewrite String.eqb_refl.
    + destruct (String.eqb k k'); [done|auto].
Qed.

Lemma contains_length (sub s : string) :
  contains sub s = true -> String.length sub <= String.length s.
Proof.
  intros (pre & post & ->)%contains_split. rewrite !length_append. lia.
Qed.

(** ** Completeness of the matcher *)

Lemma greedy_name (g0 x rest : string) :
  all_chars not_rbrace x = true ->
  rep not_rbrace true (exec [GClose; Lit "}"; Lit "}"]) (Caps true g0)
      (x +:+ "}}" +:+ rest)
  = Some (Caps false (g0 +:+ x), rest).
Proof.
  revert g0. induction x as [|c x IH]; intros g0 H.
  - simpl. by rewrite append_nil_r.
  - cbn [all_chars] in H. apply andb_true_iff in H as [Hc Hx].
    rewrite append_cons, rep_cons, Hc. unfold eat. cbn [recording group1].
    rewrite (IH _ Hx). by rewrite append_assoc.
Qed.

Lemma match_field_token (g rest : string) :
  g <> "" -> all_chars not_rbrace g = true ->
  match_at re_field ("{{" +:+ g +:+ "}}" +:+ rest) = Some (g, rest).
Proof.
  intros Hg H. destruct g as [|d g]; [done|].
  cbn [all_chars] in H. apply andb_true_iff in H as [Hd H].
  unfold match_at.
  change (exec re_field (Caps false "") ("{{" +:+ String d g +:+ "}}" +:+ rest))
    with (if not_rbrace d
          then rep not_rbrace true (exec [GClose; Lit "}"; Lit "}"])
                   (Caps true (String d "")) (g +:+ "}}" +:+ rest)
          else None).
  by rewrite Hd, greedy_name.
Qed.

Lemma last_str_cons (c : ascii) (s : string) :
  s <> "" -> last_str (String c s) = last_str s.
Proof. by destruct s. Qed.

(** A token of blanks only: the greedy [\s*] gives its last blank back to
    the group. *)
Lemma match_field_ws_blank (inner rest : string) :
  inner <> "" -> all_chars isspace inner = true ->
  match_at re_field_ws ("{{" +:+ inner +:+ "}}" +:+ rest)
  = Some (last_str inner, rest).
Proof.
  intros Hne Hsp. unfold match_at.
  enough (exec re_field_ws (Caps false "") ("{{" +:+ inner +:+ "}}" +:+ rest)
          = Some (Caps false (last_str inner), rest)) as -> by done.
  change (exec re_field_ws (Caps false "") ("{{" +:+ inner +:+ "}}" +:+ rest))
    with (rep isspace true
            (exec [GOpen; Plus not_brace false; GClose; Star isspace true;
                   Lit "}"; Lit "}"])
            (Caps false "") (inner +:+ "}}" +:+ rest)).
  induction inner as [|c inner IH]; [done|].
  cbn [all_chars] in Hsp. apply andb_true_iff in Hsp as [Hc Hsp].
  rewrite append_cons, rep_cons, Hc. unfold eat. cbn [recording].
  destruct inner as [|c' inner].
  - change ("" +:+ "}}" +:+ rest) with (String "}" (String "}" rest)).
    rewrite rep_cons, rbrace_not_space.
    assert (exec [GOpen; Plus not_brace false; GClose; Star isspace true;
                  Lit "}"; Lit "}"]
              (Caps false "") (String "}" (String "}" rest)) = None) as -> by done.
    change (exec [GOpen; Plus not_brace false; GClose; Star isspace true;
                  Lit "}"; Lit "}"]
              (Caps false "") (String c (String "}" (String "}" rest))))
      with (if not_brace c
            then rep not_brace false
                   (exec [GClose; Star isspace true; Lit "}"; Lit "}"])
                   (Caps true (String c "")) (String "}" (String "}" rest))
            else None).
    rewrite (space_not_brace _ Hc).
    exact (lazy_name (String c "") "" rest eq_refl).
  - by rewrite IH.
Qed.

Lemma match_field_ws_complete (inner rest : string) :
  inner <> "" -> all_chars not_brace inner = true ->
  match_at re_field_ws ("{{" +:+ inner +:+ "}}" +:+ rest)
  = Some (captured_name inner, rest).
Proof.
  intros Hne Hnb. unfold captured_name.
  destruct (all_chars isspace inner) eqn:Hsp.
  - by apply match_field_ws_blank.
  - by apply match_field_ws_token.
Qed.

(** A match of [re_field_ws], exactly. *)
Lemma match_field_ws_exact (s g rest : string) :
  match_at re_field_ws s = Some (g, rest) <->
  exists inner, s = "{{" +:+ inner +:+ "}}" +:+ rest
    /\ inner <> "" /\ all_chars not_brace inner = true
    /\ g = captured_name inner.
Proof.
  split.
  - intros H.
    pose proof H as (ws1 & ws2 & -> & H1 & H2 & Hg & Hnb)%match_field_ws_sound.
    assert (all_chars not_brace (ws1 +:+ g +:+ ws2) = true) as Hin.
    { rewrite !all_chars_app, Hnb.
      by rewrite !(all_chars_impl isspace not_brace _ space_not_brace). }
    assert (ws1 +:+ g +:+ ws2 <> "") as Hne.
    { intros E. apply (f_equal String.length) in E.
      rewrite !length_append in E. destruct g; [done|]. simpl in E. lia. }
    exists (ws1 +:+ g +:+ ws2). rewrite !append_assoc. repeat split; try done.
    pose proof (match_field_ws_complete _ rest Hne Hin) as H'.
    rewrite !append_assoc in H'. rewrite H in H'. by injection H'.
  - intros (inner & -> & Hne & Hnb & ->). by apply match_field_ws_complete.
Qed.

(** A match of [re_field], exactly. *)
Lemma match_field_exact (s g rest : string) :
  match_at re_field s = Some (g, rest) <->
  s = "{{" +:+ g +:+ "}}" +:+ rest /\ g <> "" /\ all_chars not_rbrace g = true.
Proof.
  split; [apply match_field_sound|].
  intros (-> & Hg & H). by apply match_field_token.
Qed.

(** ** An unterminated tail *)

(** Whatever ends in [}}] in a text followed by an open tail ends before
    the tail. *)
Lemma close_before_tail (x b r tail : string) :
  open_tail tail ->
  b +:+ tail = x +:+ "}}" +:+ r ->
  exists r0, b = x +:+ "}}" +:+ r0 /\ r = r0 +:+ tail.
Proof.
  intros [Hc Hp]. revert b. induction x as [|a x IH]; intros b E.
  - destruct b as [|c1 [|c2 b]]; cbn [String.append] in E.
    + subst tail.
      by rewrite (prefix_append "}" (String "}" r)
                  : String.prefix "}" (String "}" (String "}" r)) = true) in Hp.
    + injection E as -> ->.
      by rewrite (prefix_append "}" r
                  : String.prefix "}" (String "}" r) = true) in Hp.
    + injection E as -> -> <-. by exists b.
  - destruct b as [|c b]; cbn [String.append] in E.
    + assert (contains "}}" tail = true) as Hc'; [|by rewrite Hc' in Hc].
      apply contains_split. exists (String a x), r. by subst.
    + injection E as -> E.
      destruct (IH _ E) as (r0 & -> & ->). by exists r0.
Qed.

Lemma open_tail_no_token (tail : string) : open_tail tail -> no_token tail.
Proof. intros [? _]. by right. Qed.

Lemma open_tail_span (rest : string) :
  contains "}}" rest = false -> open_tail ("{{" +:+ rest).
Proof.
  intros H. split; [|done].
  destruct (contains "}}" ("{{" +:+ rest)) eqn:E; [|done].
  apply contains_split in E as (pre & post & E).
  destruct pre as [|c1 [|c2 pre]]; cbn [String.append] in E; try done.
  injection E as _ _ E.
  assert (contains "}}" rest = true) as Hc
    by (apply contains_split; by exists pre, post).
  by rewrite Hc in H.
Qed.

Lemma match_field_tail (b tail : string) :
  open_tail tail ->
  match_at re_field (b +:+ tail)
  = match match_at re_field b with
    | Some (g, r) => Some (g, r +:+ tail)
    | None => None
    end.
Proof.
  intros Ht. destruct (match_at re_field b) as [[g r]|] eqn:Eb.
  - apply match_field_exact in Eb as (-> & Hg & H).
    rewrite !append_assoc. by apply match_field_token.
  - destruct (match_at re_field (b +:+ tail)) as [[g r']|] eqn:E; [|done].
    apply match_field_exact in E as (E & Hg & H).
    rewrite <- append_assoc in E.
    apply close_before_tail in E as (r0 & -> & ->); [|done].
    rewrite append_assoc in Eb. by rewrite match_field_token in Eb.
Qed.

Lemma match_field_ws_tail (b tail : string) :
  open_tail tail ->
  match_at re_field_ws (b +:+ tail)
  = match match_at re_field_ws b with
    | Some (g, r) => Some (g, r +:+ tail)
    | None => None
    end.
Proof.
  intros Ht. destruct (match_at re_field_ws b) as [[g r]|] eqn:Eb.
  - apply match_field_ws_exact in Eb as (inner & -> & Hne & Hnb & ->).
    rewrite !append_assoc. by apply match_field_ws_complete.
  - destruct (match_at re_field_ws (b +:+ tail)) as [[g r']|] eqn:E; [|done].
    apply match_field_ws_exact in E as (inner & E & Hne & Hnb & ->).
    rewrite <- append_assoc in E.
    apply close_before_tail in E as (r0 & -> & ->); [|done].
    rewrite append_assoc in Eb. by rewrite match_field_ws_complete in Eb.
Qed.

(** [re.findall] does not see an open tail. *)
Lemma findall_from_tail (p : list atom) (skip : nat) (b tail : string) :
  match_at p "" = None ->
  (forall s, no_token s -> match_at p s = None) ->
  (forall b, match_at p (b +:+ tail)
             = match match_at p b with
               | Some (g, r) => Some (g, r +:+ tail)
               | None => None
               end) ->
  open_tail tail ->
  findall_from p skip (b +:+ tail) = findall_from p skip b.
Proof.
  intros Hnil Hno Hm Ht. revert skip. induction b as [|c b IH]; intros skip.
  - cbn [String.append]. rewrite findall_from_nil.
    + simpl. rewrite Hnil. by destruct skip.
    + intros pre s ->. apply Hno.
      eapply no_token_suffix; [done|]. by apply open_tail_no_token.
  - rewrite append_cons. cbn [findall_from]. destruct skip; [|apply IH].
    rewrite <- append_cons, Hm.
    destruct (match_at p (String c b)) as [[g r]|]; [|apply IH].
    rewrite IH. do 2 f_equal.
    rewrite !length_append. cbn [String.length]. lia.
Qed.

Lemma findall_field_tail (b tail : string) :
  open_tail tail -> findall re_field (b +:+ tail) = findall re_field b.
Proof.
  intros Ht. apply findall_from_tail; [done| |by intros; apply match_field_tail|done].
  apply no_token_match_field.
Qed.

Lemma findall_field_ws_tail (b tail : string) :
  open_tail tail -> findall re_field_ws (b +:+ tail) = findall re_field_ws b.
Proof.
  intros Ht.
  apply findall_from_tail; [done| |by intros; apply match_field_ws_tail|done].
  apply no_token_match_field_ws.
Qed.

(** [str] functions with a pattern that ends in [}}], on a text followed
    by an open tail. *)
Section ClosingPattern.
Variables (q tail : string).
Hypothesis Htail : open_tail tail.

Lemma closing_pattern_not_nil : (q +:+ "}}") <> "".
Proof. by destruct q. Qed.

Lemma prefix_tail (b : string) :
  String.prefix (q +:+ "}}") (b +:+ tail) = String.prefix (q +:+ "}}") b.
Proof.
  destruct (String.prefix (q +:+ "}}") b) eqn:E1.
  - apply prefix_split in E1 as [b0 ->]. by rewrite append_assoc, prefix_append.
  - destruct (String.prefix (q +:+ "}}") (b +:+ tail)) eqn:E2; [|done].
    apply prefix_split in E2 as [r E2]. rewrite append_assoc in E2.
    apply close_before_tail in E2 as (r0 & -> & _); [|done].
    by rewrite <- append_assoc, prefix_append in E1.
Qed.

Lemma contains_tail_none : contains (q +:+ "}}") tail = false.
Proof.
  destruct Htail as [Hc _]. apply (contains_false_sub "}}"); [|done].
  apply contains_split. exists q, "". by rewrite append_nil_r.
Qed.

Lemma contains_tail (b : string) :
  contains (q +:+ "}}") (b +:+ tail) = contains (q +:+ "}}") b.
Proof.
  induction b as [|c b IH].
  - cbn [String.append]. rewrite contains_tail_none, contains_nil.
    pose proof closing_pattern_not_nil. by destruct (q +:+ "}}").
  - rewrite append_cons, !contains_cons, IH, <- append_cons. by rewrite prefix_tail.
Qed.

Lemma count_from_none (p : string) (k : nat) (s : string) :
  contains p s = false -> count_from p k s = 0.
Proof.
  revert k. induction s as [|c s IH]; intros k H; [done|].
  rewrite contains_cons in H. apply orb_false_iff in H as [Hp Hs].
  cbn [count_from]. rewrite Hp. destruct k; auto.
Qed.

Lemma replace_from_none (p v s : string) :
  contains p s = false -> replace_from p v 0 s = s.
Proof.
  induction s as [|c s IH]; intros H; [done|].
  rewrite contains_cons in H. apply orb_false_iff in H as [Hp Hs].
  cbn [replace_from]. by rewrite Hp, IH.
Qed.

Lemma count_from_tail (k : nat) (b : string) :
  count_from (q +:+ "}}") k (b +:+ tail) = count_from (q +:+ "}}") k b.
Proof.
  revert k. induction b as [|c b IH]; intros k.
  - cbn [String.append]. by rewrite count_from_none by apply contains_tail_none.
  - rewrite append_cons. cbn [count_from]. destruct k; [|apply IH].
    rewrite <- append_cons, prefix_tail. by rewrite !IH.
Qed.

Lemma replace_from_tail (v : string) (k : nat) (b : string) :
  k <= String.length b ->
  replace_from (q +:+ "}}") v k (b +:+ tail)
  = replace_from (q +:+ "}}") v k b +:+ tail.
Proof.
  revert k. induction b as [|c b IH]; intros k Hk.
  - cbn [String.length] in Hk. assert (k = 0) as -> by lia.
    cbn [String.append]. by rewrite replace_from_none by apply contains_tail_none.
  - rewrite append_cons. cbn [replace_from String.length] in *.
    destruct k; [|apply IH; lia].
    rewrite <- append_cons, prefix_tail.
    destruct (String.prefix (q +:+ "}}") (String c b)) eqn:E.
    + apply prefix_split in E as [b0 E]. apply (f_equal String.length) in E.
      rewrite length_append in E. cbn [String.length] in E.
      rewrite IH by lia. by rewrite append_assoc.
    + by rewrite IH by lia.
Qed.

Lemma str_count_tail (b : string) :
  str_count (q +:+ "}}") (b +:+ tail) = str_count (q +:+ "}}") b.
Proof.
  unfold str_count. pose proof closing_pattern_not_nil.
  pose proof (count_from_tail 0 b). by destruct (q +:+ "}}").
Qed.

Lemma str_replace_tail (v b : string) :
  str_replace (q +:+ "}}") v (b +:+ tail) = str_replace (q +:+ "}}") v b +:+ tail.
Proof.
  unfold str_replace. pose proof closing_pattern_not_nil.
  pose proof (replace_from_tail v 0 b ltac:(lia)). by destruct (q +:+ "}}").
Qed.

End ClosingPattern.

Lemma server_replace_field_tail (item : string * string) (t tail : string)
    (n : nat) :
  open_tail tail ->
  Server.replace_field (t +:+ tail, n) item
  = ((Server.replace_field (t, n) item).1 +:+ tail,
     (Server.replace_field (t, n) item).2).
Proof.
  intros Ht. unfold Server.replace_field, Server.pattern_of.
  rewrite <- !append_assoc.
  rewrite contains_tail, str_count_tail, str_replace_tail by done.
  by destruct (contains _ t).
Qed.

Lemma server_replace_in_run_tail (m : fieldmap) (n : nat) (t tail : string) :
  open_tail tail ->
  Server.replace_in_run m n (t +:+ tail)
  = ((Server.replace_in_run m n t).1 +:+ tail, (Server.replace_in_run m n t).2).
Proof.
  intros Ht. unfold Server.replace_in_run. revert t n.
  induction m as [|item m IH]; intros t n; [done|].
  cbn [foldl]. rewrite server_replace_field_tail by done.
  destruct (Server.replace_field (t, n) item) as [t' n']. apply IH.
Qed.

Lemma original_pattern_closing (f : string) :
  exists q, ServerNew.original_pattern f = q +:+ "}}".
Proof.
  unfold ServerNew.original_pattern. destruct (has_char " " f).
  - exists ("{{ " +:+ f +:+ " "). by rewrite !append_assoc.
  - exists ("{{" +:+ f). by rewrite !append_assoc.
Qed.

Lemma server_new_replace_field_tail (m : fieldmap) (f t tail : string) (n : nat) :
  open_tail tail ->
  ServerNew.replace_field m (t +:+ tail, n) f
  = ((ServerNew.replace_field m (t, n) f).1 +:+ tail,
     (ServerNew.replace_field m (t, n) f).2).
Proof.
  intros Ht. unfold ServerNew.replace_field.
  destruct (dict_get (strip f) m) as [v|]; [|done].
  destruct (original_pattern_closing f) as [q ->].
  by rewrite str_replace_tail.
Qed.

Lemma server_new_replace_fields_tail (m : fieldmap) (fs : list string)
    (t tail : string) (n : nat) :
  open_tail tail ->
  foldl (ServerNew.replace_field m) (t +:+ tail, n) fs
  = ((foldl (ServerNew.replace_field m) (t, n) fs).1 +:+ tail,
     (foldl (ServerNew.replace_field m) (t, n) fs).2).
Proof.
  intros Ht. revert t n. induction fs as [|f fs IH]; intros t n; [done|].
  cbn [foldl]. rewrite server_new_replace_field_tail by done.
  destruct (ServerNew.replace_field m (t, n) f) as [t' n']. apply IH.
Qed.

Lemma server_new_replace_in_text_tail (m : fieldmap) (t tail : string) :
  open_tail tail ->
  ServerNew.replace_in_text m (t +:+ tail)
  = ((ServerNew.replace_in_text m t).1 +:+ tail,
     (ServerNew.replace_in_text m t).2).
Proof.
  intros Ht. unfold ServerNew.replace_in_text.
  rewrite findall_field_ws_tail by done.
  by apply server_new_replace_fields_tail.
Qed.

Lemma discover_py_tail (t tail : string) :
  open_tail tail -> discover_py (t +:+ tail) = discover_py t.
Proof.
  intros Ht. unfold discover_py, Server.extract_fields_from_text.
  by rewrite findall_field_tail.
Qed.

Lemma discover_new_tail (t tail : string) :
  open_tail tail -> discover_new (t +:+ tail) = discover_new t.
Proof.
  intros Ht. unfold discover_new, ServerNew.extract_fields.
  by rewrite findall_field_ws_tail.
Qed.

(** ** Substitution with a matching key in server.py *)

Lemma contains_count_pos (pat t : string) :
  pat <> "" -> contains pat t = true -> 0 < str_count pat t.
Proof.
  intros Hp. unfold str_count. destruct pat as [|a pat]; [done|].
  induction t as [|c t IH]; intros H.
  - by rewrite contains_nil in H.
  - rewrite contains_cons in H. cbn [count_from].
    destruct (String.prefix (String a pat) (String c t)); [lia|auto].
Qed.

Lemma server_fold_mono (m : fieldmap) (t : string) (n : nat) :
  n <= (Server.replace_in_run m n t).2.
Proof.
  unfold Server.replace_in_run. revert t n.
  induction m as [|[k v] m IH]; intros t n; [done|].
  cbn [foldl]. unfold Server.replace_field at 2. cbn [fst snd].
  destruct (contains _ t); [|apply IH].
  etrans; [|apply IH]. lia.
Qed.

(** When [{{k}}] occurs in the run for a key [k], server.py counts at least
    one replacement. *)
Lemma server_counts_token (m : fieldmap) (t : string) (n : nat) (k : string) :
  k ∈ m.*1 -> contains (Server.pattern_of k) t = true ->
  n < (Server.replace_in_run m n t).2.
Proof.
  revert t n. induction m as [|[k' v] m IH]; intros t n Hk Hc.
  - by apply elem_of_nil in Hk.
  - unfold Server.replace_in_run. cbn [foldl].
    unfold Server.replace_field at 2. cbn [fst snd].
    destruct (contains (Server.pattern_of k') t) eqn:E.
    + apply contains_count_pos in E; [|done].
      eapply Nat.lt_le_trans; [|apply server_fold_mono]. lia.
    + simpl in Hk. apply elem_of_cons in Hk as [->|Hk]; [congruence|].
      by apply IH.
Qed.

(** ** The paragraph loops *)

Section LoopsFlat.
Context {St : Type} (visit : St -> pid -> St).

Lemma foldl_concat {A B : Type} (f : A -> B -> A) (a : A) (ls : list (list B)) :
  foldl (fun a l => foldl f a l) a ls = foldl f a (concat ls).
Proof.
  revert a. induction ls as [|l ls IH]; intros a; [done|].
  simpl. by rewrite foldl_app, IH.
Qed.

Lemma foldl_each {A B C : Type} (f : A -> B -> A) (g : C -> list B)
    (h : A -> C -> A) (a : A) (cs : list C) :
  (forall a c, h a c = foldl f a (g c)) ->
  foldl h a cs = foldl f a (concat (g <$> cs)).
Proof.
  intros H. revert a. induction cs as [|c cs IH]; intros a; [done|].
  simpl. by rewrite foldl_app, IH, H.
Qed.

Lemma for_tables_flat (st : St) (ts : list Table) :
  for_tables visit st ts = foldl visit st (concat (concat (concat ts))).
Proof.
  unfold for_tables, for_paragraphs.
  by rewrite <- !foldl_concat.
Qed.

Lemma for_part_flat (st : St) (part : option (list pid)) :
  for_part visit st part = foldl visit st (part_regions part).
Proof. by destruct part. Qed.

Lemma gemini_find_loops_flat (doc : Document) (st : St) :
  ServerGemini.find_loops visit doc st
  = foldl visit st (gemini_enumerate_regions doc).
Proof.
  unfold ServerGemini.find_loops, gemini_enumerate_regions, body_regions,
    table_regions.
  rewrite !foldl_app, <- for_tables_flat.
  apply foldl_each. intros a s. unfold gemini_section_regions.
  by rewrite !foldl_app, !for_part_flat.
Qed.

Lemma gemini_replace_loops_flat (doc : Document) (st : St) :
  ServerGemini.replace_loops visit doc st
  = foldl visit st (gemini_enumerate_regions doc).
Proof.
  unfold ServerGemini.replace_loops, gemini_enumerate_regions, body_regions,
    table_regions.
  rewrite !foldl_app, <- for_tables_flat.
  apply foldl_each. intros a s. unfold gemini_section_regions.
  by rewrite !foldl_app, !for_part_flat.
Qed.

Lemma server_find_loops_flat (doc : Document) (st : St) :
  Server.find_loops visit doc st
  = foldl visit st (primary_enumerate_regions doc).
Proof.
  unfold Server.find_loops, primary_enumerate_regions, body_regions,
    table_regions.
  rewrite !foldl_app, <- for_tables_flat.
  apply foldl_each. intros a s. unfold primary_section_regions.
  by rewrite !foldl_app, !for_part_flat.
Qed.

Lemma server_replace_loops_flat (doc : Document) (st : St) :
  Server.replace_loops visit doc st
  = foldl visit st (primary_enumerate_regions doc).
Proof.
  unfold Server.replace_loops, primary_enumerate_regions, body_regions,
    table_regions.
  rewrite !foldl_app, <- for_tables_flat.
  apply foldl_each. intros a s. unfold primary_section_regions.
  by rewrite !foldl_app, !for_part_flat.
Qed.

Lemma server_new_find_loops_flat (doc : Document) (st : St) :
  ServerNew.find_loops visit doc st
  = foldl visit st (primary_enumerate_regions doc).
Proof.
  unfold ServerNew.find_loops, primary_enumerate_regions, body_regions,
    table_regions.
  rewrite !foldl_app, <- for_tables_flat.
  apply foldl_each. intros a s. unfold primary_section_regions.
  cbn [foldl]. by rewrite !foldl_app, !for_part_flat.
Qed.

Lemma server_new_replace_loops_flat (doc : Document) (st : St) :
  ServerNew.replace_loops visit doc st
  = foldl visit st (primary_enumerate_regions doc).
Proof.
  unfold ServerNew.replace_loops, primary_enumerate_regions, body_regions,
    table_regions.
  rewrite !foldl_app, <- for_tables_flat.
  apply foldl_each. intros a s. unfold primary_section_regions.
  cbn [foldl]. by rewrite !foldl_app, !for_part_flat.
Qed.

End LoopsFlat.

Lemma foldl_record_visit (trace ps : list pid) :
  foldl record_visit trace ps = trace ++ ps.
Proof.
  revert trace. induction ps as [|p ps IH]; intros trace; simpl.
  - by rewrite app_nil_r.
  - rewrite IH. unfold record_visit. by rewrite <- app_assoc.
Qed.

(** * The claims *)

(** ** C1 *)

Section Gemini.
Variable expand : string -> string -> option string.

Lemma gemini_fold_mono (m : fieldmap) (t : string) (n : nat) :
  plain_values m ->
  exists t' n', foldl (ServerGemini.replace_field expand) (Some (t, n)) m
                = Some (t', n') /\ n <= n'.
Proof.
  intros H. revert t n. induction H as [|[k v] m Hv _ IH]; intros t n.
  - by exists t, n.
  - cbn [foldl]. unfold ServerGemini.replace_field at 2.
    unfold ServerGemini.re_sub. cbn [fst snd] in *. rewrite Hv.
    destruct (0 <? _); [|by apply IH].
    destruct (IH (str_replace (ServerGemini.pattern_of k) v t)
                 (n + str_count (ServerGemini.pattern_of k) t))
      as (t' & n' & -> & Hle).
    exists t', n'. split; [done|lia].
Qed.

End Gemini.

(** server.py looks at one run at a time: when no [{{key}}] lies within a
    single run, the runs stay as they are and nothing is counted, whatever
    the flattened text holds. *)
Lemma server_replace_in_runs_no_match (m : fieldmap) (p : pid) (runs : Paragraph) :
  (forall r k, r ∈ runs -> k ∈ m.*1 ->
               contains (Server.pattern_of k) r = false) ->
  (Server.replace_in_runs m p runs).1.1 = runs
  /\ (Server.replace_in_runs m p runs).1.2 = 0.
Proof.
  unfold Server.replace_in_runs. intros H.
  enough (forall done ws,
            let st := foldl (fun '(done, count, ws) run =>
                               let '(new_text, count') :=
                                 Server.replace_in_run m count run in
                               (done ++ [new_text], count',
                                ws ++ [SetRunText p (length done)]))
                            (done, 0, ws) runs in
            st.1.1 = done ++ runs /\ st.1.2 = 0) as Hgen by apply (Hgen [] []).
  induction runs as [|r runs IH]; intros done ws.
  - simpl. by rewrite app_nil_r.
  - cbn [foldl]. rewrite server_replace_in_run_no_match.
    + assert (Hruns : forall r' k, r' ∈ runs -> k ∈ m.*1 ->
                contains (Server.pattern_of k) r' = false).
      { intros r' k Hr. apply H. by right. }
      destruct (IH Hruns (done ++ [r]) (ws ++ [SetRunText p (length done)]))
        as [H1 H2].
      split; [|done]. rewrite H1. by rewrite <- app_assoc.
    + intros k Hk. apply H; [left|done].
Qed.

(** C1 at the failing input: the token ["{{name}}"] lies across two runs.
    server.py substitutes run by run, finds nothing in either run and leaves
    the paragraph as it was; server-gemini.py and server-new.py substitute
    in the flattened text and replace it. *)
Theorem C1_split_token :
  let doc := {| heap := [["{{na"; "me}}"]]; paragraphs := [0]; tables := [];
                sections := [] |} in
  let m := [("name", "X")] in
  text ["{{na"; "me}}"] = "{{name}}"
  /\ objects (Server.replace_fields_in_document doc m) = [["{{na"; "me}}"]]
  /\ replacements_count (Server.replace_fields_in_document doc m) = 0
  /\ (forall expand, ServerGemini.replace_fields_in_document expand doc m
                     = Some (Pass [["X"]] 1 [SetParagraphText 0]))
  /\ ServerNew.replace_fields_in_document doc m
     = Pass [["X"]] 1 [SetParagraphText 0].
Proof. by vm_compute. Qed.

(** ** C2 *)

(** C2, as the code has it: in server-new.py a match of the discovery
    pattern is exactly [{{], a non-empty run of characters other than braces,
    and [}}]; the captured name is the inner text stripped whenever the
    inner text is not only white space; and ["{{ name }}"] and ["{{name}}"]
    both discover to the single name ["name"].  In server.py a match is
    exactly [{{], a non-empty run of characters other than [}], and [}}],
    and the captured name is that run as it stands: ["{{ name }}"]
    discovers to [" name "]. *)
Theorem C2_token_grammar :
  (forall s g rest,
     match_at re_field_ws s = Some (g, rest) <->
     exists inner, s = "{{" +:+ inner +:+ "}}" +:+ rest
       /\ inner <> "" /\ all_chars not_brace inner = true
       /\ g = captured_name inner)
  /\ (forall inner, all_chars isspace inner = false ->
        captured_name inner = strip inner)
  /\ discover_new "{{ name }}" = {[ "name" ]}
  /\ discover_new "{{name}}" = {[ "name" ]}
  /\ (forall s g rest,
        match_at re_field s = Some (g, rest) <->
        s = "{{" +:+ g +:+ "}}" +:+ rest
        /\ g <> "" /\ all_chars not_rbrace g = true)
  /\ discover_py "{{ name }}" = {[ " name " ]}
  /\ discover_py "{{name}}" = {[ "name" ]}.
Proof.
  split; [|split; [|split; [|split; [|split; [|split]]]]].
  - apply match_field_ws_exact.
  - intros inner H. unfold captured_name. by rewrite H.
  - by apply discover_new_singleton.
  - by apply discover_new_singleton.
  - apply match_field_exact.
  - by apply discover_py_singleton.
  - by apply discover_py_singleton.
Qed.

Lemma C2_token_grammar_witness :
  match_at re_field_ws ("{{" +:+ " first name  " +:+ "}}" +:+ " tail")
  = Some ("first name", " tail")
  /\ captured_name " first name  " = strip " first name  ".
Proof.
  split.
  - apply (proj2 (proj1 C2_token_grammar
                    ("{{" +:+ " first name  " +:+ "}}" +:+ " tail")
                    "first name" " tail")).
    exists " first name  ". repeat split. discriminate.
  - apply (proj1 (proj2 C2_token_grammar) " first name  "). reflexivity.
Defined.

(** C2 does not hold as stated: server.py keeps the padding of
    ["{{ name }}"] in the name, and in server-new.py the name captured from
    white space only is its last character, not the empty string. *)
Lemma C2_counterexample :
  discover_py "{{ name }}" = {[ " name " ]}
  /\ discover_py "{{ name }}" <> {[ "name" ]}
  /\ match_at re_field_ws "{{  }}" = Some (" ", "")
  /\ strip "  " = "".
Proof.
  assert (H : discover_py "{{ name }}" = {[ " name " ]})
    by (by apply discover_py_singleton).
  split; [done|]. split; [|done].
  rewrite H. intros E.
  assert (" name " ∈ ({[ "name" ]} : gset string)) as Hin
    by (rewrite <- E; by apply elem_of_singleton).
  by apply elem_of_singleton in Hin.
Qed.

(** ** C3 *)

(** C3 at the failing input: server-new.py finds the padded token
    ["{{ a }}"], counts it, and leaves the text as it was, because the
    pattern it rebuilds is ["{{a}}"]; server.py does not replace it either.
    The example of the claim holds in both. *)
Theorem C3_padded_token_kept :
  ServerNew.replace_in_text [("a", "1")] "{{ a }}" = ("{{ a }}", 1)
  /\ ServerNew.replace_in_text [("a b", "1")] "{{a b}}" = ("{{a b}}", 1)
  /\ Server.replace_in_run [("a", "1")] 0 "{{ a }}" = ("{{ a }}", 0)
  /\ ServerNew.replace_in_text [("a", "1"); ("b", "2")] "{{a}} and {{a}} and {{b}}"
     = ("1 and 1 and 2", 3)
  /\ Server.replace_in_run [("a", "1"); ("b", "2")] 0 "{{a}} and {{a}} and {{b}}"
     = ("1 and 1 and 2", 3).
Proof. by vm_compute. Qed.

(** ** C4 *)

(** In server-new.py a text that is the single token ["{{a}}"] gets the
    value of [a] and nothing more, whatever else the FieldMap holds. *)
Lemma server_new_single_token (m : fieldmap) (v : string) :
  dict_get "a" m = Some v ->
  ServerNew.replace_in_text m "{{a}}" = (v, 1).
Proof.
  intros H. unfold ServerNew.replace_in_text.
  change (findall re_field_ws "{{a}}") with ["a"].
  cbn [foldl]. unfold ServerNew.replace_field.
  change (strip "a") with "a". rewrite H.
  change (str_replace (ServerNew.original_pattern "a") v "{{a}}") with (v +:+ "").
  by rewrite append_nil_r.
Qed.

(** C4 at the failing inputs: server.py replaces key after key on the
    running text, so the value put in for [a] is replaced again by [b];
    server-new.py does the same as soon as the text holds a second token. *)
Theorem C4_values_rescanned :
  Server.replace_in_run [("a", "{{b}}"); ("b", "X")] 0 "{{a}}" = ("X", 2)
  /\ ServerNew.replace_in_text [("a", "{{b}}"); ("b", "X")] "{{a}}{{b}}" = ("XX", 2)
  /\ ServerNew.replace_in_text [("a", "{{b}}"); ("b", "X")] "{{a}}" = ("{{b}}", 1).
Proof. by vm_compute. Qed.

(** ** C5 *)

(** C5, as the code has it: in server-gemini.py both passes visit the body
    paragraphs, then the paragraphs of every cell of every row of every
    table, then for every section the primary, even-page and first-page
    header and the primary, even-page and first-page footer, each when
    present; whatever the passes do at a paragraph, they do it in this
    order.  In server.py and server-new.py, too, discovery and substitution
    visit the same paragraphs in the same order. *)
Theorem C5_region_enumeration (doc : Document) :
  ServerGemini.find_loops record_visit doc [] = gemini_enumerate_regions doc
  /\ ServerGemini.replace_loops record_visit doc [] = gemini_enumerate_regions doc
  /\ ServerGemini.find_template_fields doc
     = sorted_list (foldl (ServerGemini.find_visit (heap doc)) ∅
                          (gemini_enumerate_regions doc))
  /\ (forall expand m,
        ServerGemini.replace_fields_in_document expand doc m
        = foldl (ServerGemini._replace_in_paragraph_or_cell expand m)
                (Some (Pass (heap doc) 0 []))
                (gemini_enumerate_regions doc))
  /\ Server.find_loops record_visit doc [] = Server.replace_loops record_visit doc []
  /\ ServerNew.find_loops record_visit doc []
     = ServerNew.replace_loops record_visit doc [].
Proof.
  repeat apply conj.
  - by rewrite gemini_find_loops_flat, foldl_record_visit.
  - by rewrite gemini_replace_loops_flat, foldl_record_visit.
  - unfold ServerGemini.find_template_fields. by rewrite gemini_find_loops_flat.
  - intros expand m. unfold ServerGemini.replace_fields_in_document.
    by rewrite gemini_replace_loops_flat.
  - by rewrite server_find_loops_flat, server_replace_loops_flat.
  - by rewrite server_new_find_loops_flat, server_new_replace_loops_flat.
Qed.

(** C5 does not hold as stated: server-gemini.py visits the even-page
    header before the first-page header, and server.py visits neither, so a
    field in a first-page header is not discovered there. *)
Lemma C5_counterexample :
  let s := {| header := None; first_page_header := Some [0];
              even_page_header := Some [1]; footer := None;
              first_page_footer := None; even_page_footer := None |} in
  let doc := {| heap := [["{{x}}"]; ["{{y}}"]]; paragraphs := [];
                tables := []; sections := [s] |} in
  spec_enumerate_regions doc = [0; 1]
  /\ ServerGemini.find_loops record_visit doc [] = [1; 0]
  /\ ServerGemini.replace_loops record_visit doc [] = [1; 0]
  /\ Server.find_loops record_visit doc [] = []
  /\ Server.find_template_fields doc = []
  /\ ServerGemini.find_template_fields doc = ["x"; "y"].
Proof. by vm_compute. Qed.

(** ** C6 *)

(** C6, as the code has it: a [{{] that no [}}] follows is never matched.
    Discovery on a text ending in such a span reports the names of the text
    before it, and substitution returns the substituted text before it, the
    span verbatim and the same count, for every FieldMap; a text without
    [}}] discovers to nothing and comes back with count 0.  In
    server-new.py no match starts at a [{{] whose brace-free run is cut by
    another [{], and no discovered name contains a brace. *)
Theorem C6_malformed_tokens :
  (forall pre rest m, contains "}}" rest = false ->
     discover_py (pre +:+ "{{" +:+ rest) = discover_py pre
     /\ discover_new (pre +:+ "{{" +:+ rest) = discover_new pre
     /\ Server.replace_in_run m 0 (pre +:+ "{{" +:+ rest)
        = ((Server.replace_in_run m 0 pre).1 +:+ "{{" +:+ rest,
           (Server.replace_in_run m 0 pre).2)
     /\ ServerNew.replace_in_text m (pre +:+ "{{" +:+ rest)
        = ((ServerNew.replace_in_text m pre).1 +:+ "{{" +:+ rest,
           (ServerNew.replace_in_text m pre).2))
  /\ (forall t m, contains "}}" t = false ->
        discover_py t = ∅ /\ discover_new t = ∅
        /\ Server.replace_in_run m 0 t = (t, 0)
        /\ ServerNew.replace_in_text m t = (t, 0))
  /\ (forall x rest, all_chars not_brace x = true ->
        match_at re_field_ws ("{{" +:+ x +:+ "{" +:+ rest) = None)
  /\ (forall t g, g ∈ discover_new t -> all_chars not_brace g = true).
Proof.
  split; [|split; [|split]].
  - intros pre rest m H. apply open_tail_span in H.
    auto using discover_py_tail, discover_new_tail, server_replace_in_run_tail,
      server_new_replace_in_text_tail.
  - intros t m H. assert (no_token t) by (by right).
    auto using discover_py_no_token, discover_new_no_token,
      no_token_server_run, no_token_server_new.
  - apply nested_open_no_match.
  - intros t g H. by apply discover_new_name in H as [_ ?].
Qed.

Lemma C6_malformed_tokens_witness :
  (discover_py ("Dear {{a}} " +:+ "{{" +:+ "unterminated")
   = discover_py "Dear {{a}} "
   /\ discover_new ("Dear {{a}} " +:+ "{{" +:+ "unterminated")
      = discover_new "Dear {{a}} "
   /\ Server.replace_in_run [("a", "1"); ("unterminated", "X")] 0
        ("Dear {{a}} " +:+ "{{" +:+ "unterminated")
      = ((Server.replace_in_run [("a", "1"); ("unterminated", "X")] 0
            "Dear {{a}} ").1 +:+ "{{" +:+ "unterminated",
         (Server.replace_in_run [("a", "1"); ("unterminated", "X")] 0
            "Dear {{a}} ").2)
   /\ ServerNew.replace_in_text [("a", "1"); ("unterminated", "X")]
        ("Dear {{a}} " +:+ "{{" +:+ "unterminated")
      = ((ServerNew.replace_in_text [("a", "1"); ("unterminated", "X")]
            "Dear {{a}} ").1 +:+ "{{" +:+ "unterminated",
         (ServerNew.replace_in_text [("a", "1"); ("unterminated", "X")]
            "Dear {{a}} ").2))
  /\ (discover_py "{{unterminated" = ∅ /\ discover_new "{{unterminated" = ∅
      /\ Server.replace_in_run [("unterminated", "X")] 0 "{{unterminated"
         = ("{{unterminated", 0)
      /\ ServerNew.replace_in_text [("unterminated", "X")] "{{unterminated"
         = ("{{unterminated", 0))
  /\ match_at re_field_ws ("{{" +:+ "a " +:+ "{" +:+ "{b}}") = None.
Proof.
  split; [|split].
  - apply (proj1 C6_malformed_tokens "Dear {{a}} " "unterminated"
             [("a", "1"); ("unterminated", "X")]).
    reflexivity.
  - apply (proj1 (proj2 C6_malformed_tokens) "{{unterminated"
             [("unterminated", "X")]).
    reflexivity.
  - apply (proj1 (proj2 (proj2 C6_malformed_tokens)) "a " "{b}}").
    reflexivity.
Defined.

(** C6 does not hold as stated: with a nested [{{], server.py reports the
    name ["a {{b"] and replaces the whole span under that key, and
    server-new.py reports the inner name ["b"]. *)
Lemma C6_counterexample :
  discover_py "{{a {{b}}" = {[ "a {{b" ]}
  /\ Server.replace_in_run [("a {{b", "X")] 0 "{{a {{b}}" = ("X", 1)
  /\ discover_new "{{a {{b}}" = {[ "b" ]}
  /\ ServerNew.replace_in_text [("b", "X")] "{{a {{b}}" = ("{{a X", 1).
Proof.
  split; [by apply discover_py_singleton|]. split; [done|].
  split; [by apply discover_new_singleton|done].
Qed.

(** ** C7 *)

Lemma server_run_empty_braces (m : fieldmap) :
  dict_in "" m = false -> Server.replace_in_run m 0 "{{}}" = ("{{}}", 0).
Proof.
  intros H. apply server_replace_in_run_no_match. intros k Hk.
  destruct (contains (Server.pattern_of k) "{{}}") eqn:E; [|done].
  apply contains_length in E. unfold Server.pattern_of in E.
  rewrite !length_append in E. destruct k; simpl in E; [|lia].
  by rewrite (dict_in_key _ _ Hk) in H.
Qed.

(** C7, as the code has it: no variant ever discovers the empty name,
    because the group of both patterns needs one character.  ["{{}}"] holds
    no token; ["{{  }}"] discovers to a white-space name.  server.py
    replaces the literal ["{{}}"] under an empty-string key and leaves it
    alone without one; server-new.py finds no token in ["{{}}"] and returns
    it with count 0 for every FieldMap, and returns ["{{  }}"] with count 0
    when the FieldMap has no empty-string key. *)
Theorem C7_empty_name :
  (forall t, "" ∉ discover_py t) /\ (forall t, "" ∉ discover_new t)
  /\ discover_py "{{}}" = ∅ /\ discover_new "{{}}" = ∅
  /\ discover_py "{{  }}" = {[ "  " ]} /\ discover_new "{{  }}" = {[ " " ]}
  /\ (forall m, dict_in "" m = false ->
        Server.replace_in_run m 0 "{{}}" = ("{{}}", 0))
  /\ (forall m, "" ∈ m.*1 -> 0 < (Server.replace_in_run m 0 "{{}}").2)
  /\ (forall v, Server.replace_in_run [("", v)] 0 "{{}}" = (v, 1))
  /\ (forall m, ServerNew.replace_in_text m "{{}}" = ("{{}}", 0))
  /\ (forall m, dict_in "" m = false ->
        ServerNew.replace_in_text m "{{  }}" = ("{{  }}", 0)).
Proof.
  repeat apply conj.
  - intros t H. by apply discover_py_name in H as [? _].
  - intros t H. by apply discover_new_name in H as [? _].
  - by apply discover_py_empty.
  - by apply discover_new_empty.
  - by apply discover_py_singleton.
  - by apply discover_new_singleton.
  - apply server_run_empty_braces.
  - intros m H. by apply (server_counts_token m "{{}}" 0 "").
  - intros v. vm_compute. by rewrite append_nil_r.
  - done.
  - intros m H. apply server_new_replace_in_text_no_key.
    change (findall re_field_ws "{{  }}") with [" "].
    by intros f ->%list_elem_of_singleton.
Qed.

Lemma C7_empty_name_witness :
  Server.replace_in_run [("a", "1")] 0 "{{}}" = ("{{}}", 0).
Proof.
  apply (proj1 (proj2 (proj2 (proj2 (proj2 (proj2 (proj2 C7_empty_name))))))
           [("a", "1")]).
  reflexivity.
Defined.

(** C7 does not hold as stated: discovery reports nothing for ["{{}}"] and
    a blank, not the empty string, for ["{{  }}"]; with an empty-string key
    server-new.py finds nothing to replace in ["{{}}"], and server.py, which
    compares the unstripped text between the braces, nothing in
    ["{{  }}"]. *)
Lemma C7_counterexample :
  ("" ∉ discover_py "{{}}") /\ ("" ∉ discover_new "{{}}")
  /\ ("" ∉ discover_py "{{  }}") /\ ("" ∉ discover_new "{{  }}")
  /\ ServerNew.replace_in_text [("", "X")] "{{}}" = ("{{}}", 0)
  /\ Server.replace_in_run [("", "X")] 0 "{{  }}" = ("{{  }}", 0).
Proof.
  repeat apply conj; try done.
  all: intros H.
  all: first [by apply discover_py_name in H as [? _]
             |by apply discover_new_name in H as [? _]].
Qed.

(** ** C8 *)

Lemma foldl_invariant {A B : Type} (P : A -> Prop) (f : A -> B -> A) (a : A)
    (l : list B) :
  (forall a b, P a -> P (f a b)) -> P a -> P (foldl f a l).
Proof.
  intros H. revert a. induction l as [|b l IH]; intros a Ha; [done|].
  simpl. auto.
Qed.

(** One visit of server-new.py leaves alone a paragraph whose own count
    is zero. *)
Lemma server_new_visit_frame (m : fieldmap) (p q : pid) (para : Paragraph)
    (st : pass) :
  (ServerNew.replace_in_text m (text para)).2 = 0 ->
  objects st !! p = Some para /\ SetParagraphText p ∉ writes st ->
  objects (ServerNew.replace_visit m st q) !! p = Some para
  /\ SetParagraphText p ∉ writes (ServerNew.replace_visit m st q).
Proof.
  intros Hc [Ho Hw]. unfold ServerNew.replace_visit.
  destruct (objects st !! q) as [para'|] eqn:Eq; [|done].
  destruct (ServerNew.replace_in_text m (text para')) as [new_text count] eqn:Er.
  destruct (0 <? count) eqn:Ec; [|done].
  destruct (decide (q = p)) as [->|Hne].
  - rewrite Ho in Eq. injection Eq as <-. rewrite Er in Hc. simpl in Hc.
    by rewrite Hc in Ec.
  - cbn [objects writes]. split.
    + by rewrite list_lookup_insert_ne.
    + rewrite elem_of_app, list_elem_of_singleton.
      intros [?|E]; [done|]. by injection E.
Qed.

(** C8, as the code has it: document-level substitution of server-new.py
    leaves every paragraph whose substitution count is zero, so every
    paragraph without a token match, as it was: its runs are the same and
    [paragraph.text] is not assigned. *)
Theorem C8_zero_count_untouched (doc : Document) (m : fieldmap) (p : pid)
    (para : Paragraph) :
  heap doc !! p = Some para ->
  findall re_field_ws (text para) = []
  \/ (ServerNew.replace_in_text m (text para)).2 = 0 ->
  objects (ServerNew.replace_fields_in_document doc m) !! p = Some para
  /\ SetParagraphText p ∉ writes (ServerNew.replace_fields_in_document doc m).
Proof.
  intros Hp Hz.
  assert (Hc : (ServerNew.replace_in_text m (text para)).2 = 0).
  { destruct Hz as [Hz|Hz]; [|done].
    unfold ServerNew.replace_in_text. by rewrite Hz. }
  unfold ServerNew.replace_fields_in_document.
  rewrite server_new_replace_loops_flat.
  apply (foldl_invariant
           (fun st => objects st !! p = Some para
                      /\ SetParagraphText p ∉ writes st)).
  - intros st q. by apply server_new_visit_frame.
  - split; [done|]. by intros ?%elem_of_nil.
Qed.

Lemma C8_zero_count_untouched_witness :
  let doc := {| heap := [["Dear "; "{{b}}"]; ["{{a}}"]]; paragraphs := [0; 1];
                tables := []; sections := [] |} in
  objects (ServerNew.replace_fields_in_document doc [("a", "1")]) !! 0
  = Some ["Dear "; "{{b}}"]
  /\ SetParagraphText 0
     ∉ writes (ServerNew.replace_fields_in_document doc [("a", "1")]).
Proof.
  apply (C8_zero_count_untouched
           {| heap := [["Dear "; "{{b}}"]; ["{{a}}"]]; paragraphs := [0; 1];
              tables := []; sections := [] |}
           [("a", "1")] 0 ["Dear "; "{{b}}"]).
  - reflexivity.
  - right. reflexivity.
Defined.

(** C8 does not hold as stated: with the value ["{{a}}"] for [a] the new
    text of the first paragraph equals the old one, yet server-new.py
    assigns [paragraph.text] and the two runs become one; server.py assigns
    [run.text] for every run, also in the paragraph without any token. *)
Lemma C8_counterexample :
  let doc := {| heap := [["{{a"; "}}"]; ["plain"; " text"]]; paragraphs := [0; 1];
                tables := []; sections := [] |} in
  let m := [("a", "{{a}}")] in
  ServerNew.replace_in_text m (text ["{{a"; "}}"]) = (text ["{{a"; "}}"], 1)
  /\ objects (ServerNew.replace_fields_in_document doc m)
     = [["{{a}}"]; ["plain"; " text"]]
  /\ writes (ServerNew.replace_fields_in_document doc m) = [SetParagraphText 0]
  /\ findall re_field (text ["plain"; " text"]) = []
  /\ writes (Server.replace_fields_in_document doc m)
     = [SetRunText 0 0; SetRunText 0 1; SetRunText 1 0; SetRunText 1 1].
Proof. by vm_compute. Qed.

(** ** C9 *)

(** C9, as the code has it: a text without [{{] or without [}}] discovers
    to nothing and is returned with count 0 by both substitutions; in
    server-new.py a FieldMap without the stripped name of any token of the
    text changes nothing; in server.py, where names are not stripped, a
    FieldMap changes nothing when no [{{key}}] occurs in the text. *)
Theorem C9_no_match_unchanged :
  (forall t m, no_token t ->
     discover_py t = ∅ /\ discover_new t = ∅
     /\ Server.replace_in_run m 0 t = (t, 0)
     /\ ServerNew.replace_in_text m t = (t, 0))
  /\ (forall t m,
        (forall f, f ∈ findall re_field_ws t -> dict_in (strip f) m = false) ->
        ServerNew.replace_in_text m t = (t, 0))
  /\ (forall t m,
        (forall k, k ∈ m.*1 -> contains (Server.pattern_of k) t = false) ->
        Server.replace_in_run m 0 t = (t, 0)).
Proof.
  split; [|split].
  - intros t m H.
    auto using discover_py_no_token, discover_new_no_token,
      no_token_server_run, no_token_server_new.
  - intros t m. apply server_new_replace_in_text_no_key.
  - intros t m. apply server_replace_in_run_no_match.
Qed.

Lemma C9_no_match_unchanged_witness :
  (discover_py "no braces" = ∅ /\ discover_new "no braces" = ∅
   /\ Server.replace_in_run [("a", "1")] 0 "no braces" = ("no braces", 0)
   /\ ServerNew.replace_in_text [("a", "1")] "no braces" = ("no braces", 0))
  /\ ServerNew.replace_in_text [("title", "Dr")] "Dear {{ name }}"
     = ("Dear {{ name }}", 0)
  /\ Server.replace_in_run [("title", "Dr")] 0 "Dear {{ name }}"
     = ("Dear {{ name }}", 0).
Proof.
  split; [|split].
  - apply (proj1 C9_no_match_unchanged "no braces" [("a", "1")]).
    left. reflexivity.
  - apply (proj1 (proj2 C9_no_match_unchanged) "Dear {{ name }}" [("title", "Dr")]).
    intros f Hf. change (findall re_field_ws "Dear {{ name }}") with ["name"] in Hf.
    apply list_elem_of_singleton in Hf. rewrite Hf. reflexivity.
  - apply (proj2 (proj2 C9_no_match_unchanged) "Dear {{ name }}" [("title", "Dr")]).
    intros k Hk. apply list_elem_of_singleton in Hk. rewrite Hk. reflexivity.
Defined.

(** C9 does not hold as stated for server.py: the FieldMap has no key equal
    to the stripped name ["a"] of the token, yet the token is replaced under
    the unstripped key. *)
Lemma C9_counterexample :
  (forall f, f ∈ findall re_field "{{ a }}" ->
     dict_in (strip f) [(" a ", "1")] = false)
  /\ (forall f, f ∈ findall re_field_ws "{{ a }}" ->
        dict_in (strip f) [(" a ", "1")] = false)
  /\ Server.replace_in_run [(" a ", "1")] 0 "{{ a }}" = ("1", 1)
  /\ Server.replace_in_run [(" a ", "1")] 0 "{{ a }}" <> ("{{ a }}", 0).
Proof.
  split; [|split; [|split; [done|done]]].
  - intros f Hf. change (findall re_field "{{ a }}") with [" a "] in Hf.
    by apply list_elem_of_singleton in Hf as ->.
  - intros f Hf. change (findall re_field_ws "{{ a }}") with ["a"] in Hf.
    by apply list_elem_of_singleton in Hf as ->.
Qed.

(** ** C10 *)

Lemma server_new_replace_fields_dict_eq (m1 m2 : fieldmap) (fs : list string)
    (acc : string * nat) :
  dict_eq m1 m2 ->
  foldl (ServerNew.replace_field m1) acc fs
  = foldl (ServerNew.replace_field m2) acc fs.
Proof.
  intros H. revert acc. induction fs as [|f fs IH]; intros acc; [done|].
  cbn [foldl]. rewrite <- IH. f_equal.
  unfold ServerNew.replace_field. destruct acc as [t n]. by rewrite (H (strip f)).
Qed.

Lemma extract_fields_fold (fields : gset string) (ts : list string) :
  foldl Server.extract_fields_from_text fields ts
  = fields ∪ ⋃ (discover_py <$> ts).
Proof.
  revert fields. induction ts as [|t ts IH]; intros fields.
  - cbn. by rewrite (right_id_L ∅ (∪)).
  - cbn [foldl]. rewrite IH, fmap_cons, union_list_cons.
    unfold discover_py, Server.extract_fields_from_text.
    by rewrite (left_id_L ∅ (∪)), (assoc_L (∪)).
Qed.

(** C10: the result of [replace_in_text] depends on the text and on the
    FieldMap as a dictionary only: two FieldMaps with the same keys and
    values give the same new text and count, whatever the insertion order
    of their items.  What [extract_fields_from_text] leaves in the set
    [fields] after a sequence of calls is [fields] and the names of each
    text: each call adds the names of its text whatever the set held, so the
    result depends neither on the order of the calls nor on a text being
    visited again. *)
Theorem C10_deterministic (t : string) (m1 m2 : fieldmap)
    (fields : gset string) (ts1 ts2 : list string) :
  dict_eq m1 m2 -> ts1 ≡ₚ ts2 ->
  ServerNew.replace_in_text m1 t = ServerNew.replace_in_text m2 t
  /\ foldl Server.extract_fields_from_text fields ts1
     = fields ∪ ⋃ (discover_py <$> ts1)
  /\ foldl Server.extract_fields_from_text fields ts1
     = foldl Server.extract_fields_from_text fields ts2
  /\ foldl Server.extract_fields_from_text fields (ts1 ++ ts2)
     = foldl Server.extract_fields_from_text fields ts1.
Proof.
  intros Hm Hts. split; [|split; [|split]].
  - by apply server_new_replace_fields_dict_eq.
  - apply extract_fields_fold.
  - rewrite !extract_fields_fold. f_equal. apply set_eq. intros x.
    rewrite !elem_of_union_list. split.
    + intros (X & HX & Hx). exists X. split; [|done]. by rewrite <- Hts.
    + intros (X & HX & Hx). exists X. split; [|done]. by rewrite Hts.
  - rewrite !extract_fields_fold, fmap_app, union_list_app_L. apply set_eq.
    intros x. rewrite !elem_of_union, !elem_of_union_list. split.
    + intros [H|[H|(X & HX & Hx)]]; [by left|by right|].
      right. exists X. split; [|done]. by rewrite Hts.
    + intros [H|H]; [by left|by right; left].
Qed.

Lemma C10_deterministic_witness :
  ServerNew.replace_in_text [("a", "1"); ("b", "2")] "{{a}} {{b}}"
  = ServerNew.replace_in_text [("b", "2"); ("a", "1")] "{{a}} {{b}}"
  /\ foldl Server.extract_fields_from_text {[ "c" ]} ["{{a}}"; "{{b}} {{a}}"]
     = foldl Server.extract_fields_from_text {[ "c" ]} ["{{b}} {{a}}"; "{{a}}"].
Proof.
  destruct (C10_deterministic "{{a}} {{b}}"
              [("a", "1"); ("b", "2")] [("b", "2"); ("a", "1")] {[ "c" ]}
              ["{{a}}"; "{{b}} {{a}}"] ["{{b}} {{a}}"; "{{a}}"])
    as (H1 & _ & H3 & _).
  - intros k. simpl.
    destruct (String.eqb_spec k "a") as [->|]; [reflexivity|].
    destruct (String.eqb_spec k "b") as [->|]; reflexivity.
  - apply perm_swap.
  - split; [exact H1|exact H3].
Defined.

(** * Further properties of the code *)

#[local] Arguments isword : simpl never.
#[local] Arguments ServerGemini.not_name_char : simpl never.
#[local] Arguments ServerGemini.separator_char : simpl never.
#[local] Arguments name_char : simpl never.

(** ** File names of server-gemini.py *)

Lemma word_not_space (c : ascii) : isword c = true -> isspace c = false.
Proof. destruct c as [[] [] [] [] [] [] [] []]; done. Qed.

Lemma word_not_separator (c : ascii) :
  isword c = true -> ServerGemini.separator_char c = false.
Proof. destruct c as [[] [] [] [] [] [] [] []]; done. Qed.

Lemma word_is_name_char (c : ascii) :
  isword c = true -> ServerGemini.not_name_char c = false.
Proof. destruct c as [[] [] [] [] [] [] [] []]; done. Qed.

Lemma name_char_kept (c : ascii) :
  ServerGemini.not_name_char c = false -> name_char c = true.
Proof. destruct c as [[] [] [] [] [] [] [] []]; done. Qed.

Lemma name_char_word (c : ascii) :
  name_char c = true -> ServerGemini.separator_char c = false -> isword c = true.
Proof. destruct c as [[] [] [] [] [] [] [] []]; done. Qed.

Lemma sub_class_empty_kept (s : string) :
  all_chars name_char (sub_class_empty ServerGemini.not_name_char s) = true.
Proof.
  induction s as [|c s IH]; [done|]. cbn [sub_class_empty].
  destruct (ServerGemini.not_name_char c) eqn:E; [done|].
  cbn [all_chars]. by rewrite (name_char_kept _ E), IH.
Qed.

Lemma all_chars_lstrip cls (s : string) :
  all_chars cls s = true -> all_chars cls (lstrip s) = true.
Proof.
  induction s as [|c s IH]; [done|]. cbn [lstrip all_chars].
  intros [Hc Hs]%andb_true_iff. destruct (isspace c); [auto|].
  cbn [all_chars]. by rewrite Hc, Hs.
Qed.

Lemma all_chars_rstrip cls (s : string) :
  all_chars cls s = true -> all_chars cls (rstrip s) = true.
Proof.
  induction s as [|c s IH]; [done|]. rewrite rstrip_cons. cbn [all_chars].
  intros [Hc Hs]%andb_true_iff. destruct (isspace c && _); [done|].
  cbn [all_chars]. by rewrite Hc, IH.
Qed.

Lemma sub_runs_from_word (b : bool) (s : string) :
  all_chars name_char s = true ->
  all_chars isword (sub_runs_from ServerGemini.separator_char "_" b s) = true.
Proof.
  revert b. induction s as [|c s IH]; intros b H; [done|].
  cbn [all_chars] in H. apply andb_true_iff in H as [Hc Hs].
  cbn [sub_runs_from]. destruct (ServerGemini.separator_char c) eqn:E.
  - rewrite all_chars_app, IH by done. by destruct b.
  - cbn [all_chars]. by rewrite (name_char_word _ Hc E), IH.
Qed.

Lemma clean_name_word (name : string) :
  all_chars isword (ServerGemini.clean_name name) = true.
Proof.
  unfold ServerGemini.clean_name, sub_runs, strip.
  apply sub_runs_from_word, all_chars_rstrip, all_chars_lstrip,
    sub_class_empty_kept.
Qed.

Lemma clean_name_of_word (s : string) :
  all_chars isword s = true -> ServerGemini.clean_name s = s.
Proof.
  intros H. unfold ServerGemini.clean_name, sub_runs, strip.
  assert (sub_class_empty ServerGemini.not_name_char s = s) as ->.
  { induction s as [|c s IH]; [done|]. cbn [all_chars] in H.
    apply andb_true_iff in H as [Hc Hs]. cbn [sub_class_empty].
    by rewrite (word_is_name_char _ Hc), IH. }
  assert (lstrip s = s) as ->.
  { destruct s as [|c s]; [done|]. cbn [all_chars] in H.
    apply andb_true_iff in H as [Hc Hs]. cbn [lstrip].
    by rewrite (word_not_space _ Hc). }
  assert (rstrip s = s) as ->.
  { induction s as [|c s IH]; [done|]. cbn [all_chars] in H.
    apply andb_true_iff in H as [Hc Hs]. rewrite rstrip_cons. cbn [all_chars].
    by rewrite (word_not_space _ Hc), IH. }
  enough (forall b, sub_runs_from ServerGemini.separator_char "_" b s = s)
    by done.
  induction s as [|c s IH]; intros b; [done|].
  cbn [all_chars] in H. apply andb_true_iff in H as [Hc Hs].
  cbn [sub_runs_from]. by rewrite (word_not_separator _ Hc), IH.
Qed.

(** X1: whatever the name or prefix, what [clean_name] returns holds word
    characters only (letters, digits and the underscore), so no path
    separator, dot, blank or hyphen; and cleaning a cleaned name changes
    nothing. *)
Theorem X1_clean_name_word_chars (name : string) :
  all_chars isword (ServerGemini.clean_name name) = true
  /\ has_char "/" (ServerGemini.clean_name name) = false
  /\ has_char "\" (ServerGemini.clean_name name) = false
  /\ has_char "." (ServerGemini.clean_name name) = false
  /\ ServerGemini.clean_name (ServerGemini.clean_name name)
     = ServerGemini.clean_name name.
Proof.
  pose proof (clean_name_word name) as H.
  assert (Hno : forall c, isword c = false ->
            has_char c (ServerGemini.clean_name name) = false).
  { intros c Hc. induction (ServerGemini.clean_name name) as [|d s IH]; [done|].
    cbn [all_chars] in H. apply andb_true_iff in H as [Hd Hs].
    cbn [has_char]. rewrite (IH Hs), orb_false_r.
    destruct (Ascii.eqb_spec c d) as [->|]; [congruence|done]. }
  repeat split; [done|by apply Hno..|by apply clean_name_of_word].
Qed.

(** X2: the file name that [generate_document] of server-gemini.py chooses
    is always a stem of word characters, an underscore, the time stamp and
    [.docx], for every prefix and every FieldMap. *)
Theorem X2_filename_shape (filename_prefix : string) (data : fieldmap)
    (timestamp : string) :
  exists stem,
    ServerGemini.filename_of filename_prefix data timestamp
    = stem +:+ "_" +:+ timestamp +:+ ".docx"
    /\ all_chars isword stem = true.
Proof.
  unfold ServerGemini.filename_of.
  destruct (nonempty filename_prefix).
  - destruct (nonempty (ServerGemini.clean_name filename_prefix)).
    + eexists. split; [done|apply clean_name_word].
    + by exists "documento".
  - destruct (nonempty _).
    + eexists. split; [done|apply clean_name_word].
    + by exists "documento".
Qed.

Lemma length_take_str (n : nat) (s : string) :
  String.length (take_str n s) = n `min` String.length s.
Proof.
  revert s. induction n as [|n IH]; intros [|c s]; simpl; auto.
Qed.

(** X3: a value shown in the list of processed data is never longer than
    100 characters; a value of at most 100 characters is shown as it is,
    and a longer one as its first 97 characters and three dots. *)
Theorem X3_display_value_bound (value : string) :
  String.length (ServerGemini.display_value value) <= 100
  /\ (String.length value <= 100 -> ServerGemini.display_value value = value)
  /\ (100 < String.length value ->
      ServerGemini.display_value value = take_str 97 value +:+ "..."
      /\ String.length (ServerGemini.display_value value) = 100).
Proof.
  unfold ServerGemini.display_value.
  destruct (100 <? String.length value) eqn:E.
  - apply Nat.ltb_lt in E.
    assert (String.length (take_str 97 value +:+ "...") = 100) as Hl.
    { rewrite length_append, length_take_str.
      change (String.length "...") with 3. lia. }
    split; [lia|]. split; [lia|done].
  - apply Nat.ltb_ge in E. split; [done|]. split; [done|lia].
Qed.

Lemma X3_display_value_bound_witness :
  ServerGemini.display_value "Juan" = "Juan".
Proof.
  apply (proj1 (proj2 (X3_display_value_bound "Juan"))). simpl. lia.
Defined.

(** ** Names and counts of server-new.py *)

Lemma all_space_rstrip (s : string) :
  all_chars isspace (rstrip s) = all_chars isspace s.
Proof.
  induction s as [|c s IH]; [done|]. rewrite rstrip_cons.
  destruct (all_chars isspace (String c s)) eqn:E; [done|].
  cbn [all_chars] in *. by rewrite IH.
Qed.

Lemma rstrip_idem (s : string) : rstrip (rstrip s) = rstrip s.
Proof.
  induction s as [|c s IH]; [done|]. rewrite rstrip_cons.
  destruct (all_chars isspace (String c s)) eqn:E; [done|].
  rewrite rstrip_cons. cbn [all_chars] in *.
  by rewrite all_space_rstrip, E, IH.
Qed.

Lemma lstrip_head (s : string) :
  lstrip s = "" \/ exists c u, lstrip s = String c u /\ isspace c = false.
Proof.
  induction s as [|c s IH]; [by left|]. cbn [lstrip].
  destruct (isspace c) eqn:E; [done|]. right. by exists c, s.
Qed.

Lemma strip_idem (s : string) : strip (strip s) = strip s.
Proof.
  unfold strip. destruct (lstrip_head s) as [->|(c & u & -> & Hc)]; [done|].
  rewrite rstrip_cons. cbn [all_chars]. rewrite Hc. cbn [andb lstrip].
  rewrite Hc. rewrite rstrip_cons. cbn [all_chars]. rewrite Hc. cbn [andb].
  by rewrite rstrip_idem.
Qed.

Lemma last_str_blank (s : string) :
  s <> "" -> all_chars isspace s = true ->
  String.length (last_str s) = 1 /\ all_chars isspace (last_str s) = true.
Proof.
  induction s as [|c s IH]; [done|]. intros _ H.
  cbn [all_chars] in H. apply andb_true_iff in H as [Hc Hs].
  destruct s as [|d s].
  - simpl. by rewrite Hc.
  - rewrite last_str_cons by done. by apply IH.
Qed.

(** X4: a name that server-new.py discovers carries no padding: stripping
    it changes nothing, unless the token held blanks only, in which case the
    name is one blank. *)
Theorem X4_discovered_name_stripped (t f : string) :
  f ∈ discover_new t ->
  strip f = f
  \/ (String.length f = 1 /\ all_chars isspace f = true).
Proof.
  intros (pre & s & rest & _ & Hm)%discover_new_elem%findall_from_elem.
  apply match_field_ws_exact in Hm as (inner & _ & Hne & _ & ->).
  unfold captured_name. destruct (all_chars isspace inner) eqn:E.
  - right. by apply last_str_blank.
  - left. apply strip_idem.
Qed.

Lemma X4_discovered_name_stripped_witness :
  strip "first name" = "first name"
  \/ (String.length "first name" = 1 /\ all_chars isspace "first name" = true).
Proof.
  apply (X4_discovered_name_stripped "Dear {{  first name }}," "first name").
  apply discover_new_elem. vm_compute. left.
Defined.

Lemma server_new_fold_count (m : fieldmap) (fs : list string) (t : string)
    (n : nat) :
  (foldl (ServerNew.replace_field m) (t, n) fs).2
  = n + length (filter (fun f => dict_in (strip f) m = true) fs).
Proof.
  revert t n. induction fs as [|f fs IH]; intros t n.
  - rewrite filter_nil. cbn. lia.
  - cbn [foldl]. rewrite filter_cons.
    unfold ServerNew.replace_field at 2.
    destruct (dict_get (strip f) m) as [v|] eqn:E.
    + rewrite decide_True by (unfold dict_in; by rewrite E).
      rewrite IH. cbn [length]. lia.
    + rewrite decide_False by (unfold dict_in; by rewrite E).
      by rewrite IH.
Qed.

(** X5: the count that [replace_in_text] returns is the number of tokens
    found in the text it was given whose stripped name is a key of the
    FieldMap, each occurrence counted; it does not depend on the values. *)
Theorem X5_replace_in_text_count (m : fieldmap) (t : string) :
  (ServerNew.replace_in_text m t).2
  = length (filter (fun f => dict_in (strip f) m = true)
                   (findall re_field_ws t)).
Proof. unfold ServerNew.replace_in_text. by rewrite server_new_fold_count. Qed.

(** ** The list of template fields *)

Lemma sorted_list_elem (fields : gset string) (f : string) :
  f ∈ sorted_list fields <-> f ∈ fields.
Proof.
  unfold sorted_list. by rewrite merge_sort_Permutation, elem_of_elements.
Qed.

Lemma sorted_list_NoDup (fields : gset string) : NoDup (sorted_list fields).
Proof.
  unfold sorted_list. rewrite merge_sort_Permutation. apply NoDup_elements.
Qed.

Lemma sorted_list_Sorted (fields : gset string) :
  Sorted String.le (sorted_list fields).
Proof. apply (Sorted_merge_sort String.le). Qed.

Lemma sorted_list_length (fields : gset string) :
  length (sorted_list fields) = size fields.
Proof. unfold sorted_list. by rewrite merge_sort_Permutation. Qed.

Section FindVisit.
Variables (re : list atom) (heap : list Paragraph).

Lemma foldl_find_elem (visit : gset string -> pid -> gset string)
    (ps : list pid) (acc : gset string) (f : string) :
  (forall fields p, visit fields p
     = match heap !! p with
       | Some para => fields ∪ list_to_set (findall re (text para))
       | None => fields
       end) ->
  f ∈ foldl visit acc ps
  <-> f ∈ acc \/ exists p para,
        p ∈ ps /\ heap !! p = Some para /\ f ∈ findall re (text para).
Proof.
  intros Hv. revert acc. induction ps as [|p ps IH]; intros acc.
  - simpl. split; [by left|]. intros [H|(p & para & H & _)]; [done|].
    by apply elem_of_nil in H.
  - cbn [foldl]. rewrite IH, Hv. split.
    + intros [H|(q & para & Hq & Hh & Hf)].
      * destruct (heap !! p) as [para|] eqn:E; [|by left].
        apply elem_of_union in H as [H|H]; [by left|].
        apply elem_of_list_to_set in H. right. exists p, para.
        split; [left|done].
      * right. exists q, para. split; [by right|done].
    + intros [H|(q & para & Hq & Hh & Hf)].
      * left. destruct (heap !! p); [|done]. apply elem_of_union. by left.
      * apply elem_of_cons in Hq as [->|Hq].
        -- left. rewrite Hh. apply elem_of_union. right.
           by apply elem_of_list_to_set.
        -- right. by exists q, para.
Qed.

End FindVisit.

Lemma elem_of_concat {A : Type} (x : A) (ls : list (list A)) :
  x ∈ concat ls <-> exists l, x ∈ l /\ l ∈ ls.
Proof.
  induction ls as [|l ls IH]; simpl.
  - split; [by intros ?%elem_of_nil|]. by intros (? & _ & ?%elem_of_nil).
  - rewrite elem_of_app, IH. split.
    + intros [H|(l' & H & Hl)]; [exists l; split; [done|left]|].
      exists l'. split; [done|by right].
    + intros (l' & H & [->|Hl]%elem_of_cons); [by left|].
      right. by exists l'.
Qed.

Lemma primary_regions_gemini (doc : Document) (p : pid) :
  p ∈ primary_enumerate_regions doc -> p ∈ gemini_enumerate_regions doc.
Proof.
  unfold primary_enumerate_regions, gemini_enumerate_regions.
  rewrite !elem_of_app. intros [H|[H|H]]; [by left|by right; left|].
  right; right. apply elem_of_concat in H as (l & Hp & Hl).
  apply list_elem_of_fmap in Hl as (s & -> & Hs).
  apply elem_of_concat. exists (gemini_section_regions s).
  split; [|apply list_elem_of_fmap; by exists s].
  unfold primary_section_regions, gemini_section_regions in *.
  rewrite !elem_of_app in *. destruct Hp as [Hp|Hp]; [by left|].
  by right; right; right; left.
Qed.

Lemma server_new_fields_elem (doc : Document) (f : string) :
  f ∈ ServerNew.find_template_fields doc
  <-> exists p para, p ∈ primary_enumerate_regions doc
        /\ heap doc !! p = Some para
        /\ f ∈ findall re_field_ws (text para).
Proof.
  unfold ServerNew.find_template_fields.
  rewrite sorted_list_elem, server_new_find_loops_flat.
  rewrite (foldl_find_elem re_field_ws (heap doc)) by done.
  split; [|by right]. by intros [?%elem_of_empty|?].
Qed.

Lemma gemini_fields_elem (doc : Document) (f : string) :
  f ∈ ServerGemini.find_template_fields doc
  <-> exists p para, p ∈ gemini_enumerate_regions doc
        /\ heap doc !! p = Some para
        /\ f ∈ findall re_field (text para).
Proof.
  unfold ServerGemini.find_template_fields.
  rewrite sorted_list_elem, gemini_find_loops_flat.
  rewrite (foldl_find_elem re_field (heap doc)) by done.
  split; [|by right]. by intros [?%elem_of_empty|?].
Qed.

(** X6: [find_template_fields] of server-new.py returns the names in
    ascending order of their code points and without duplicates, and a
    name is in the list exactly when the pattern captures it in the text of
    a paragraph of the body, of a table cell or of a primary header or
    footer. *)
Theorem X6_server_new_fields (doc : Document) :
  Sorted String.le (ServerNew.find_template_fields doc)
  /\ NoDup (ServerNew.find_template_fields doc)
  /\ forall f, f ∈ ServerNew.find_template_fields doc
       <-> exists p para, p ∈ primary_enumerate_regions doc
             /\ heap doc !! p = Some para
             /\ f ∈ findall re_field_ws (text para).
Proof.
  split; [apply sorted_list_Sorted|]. split; [apply sorted_list_NoDup|].
  apply server_new_fields_elem.
Qed.

(** X7: [find_template_fields] of server-gemini.py returns the names in
    ascending order and without duplicates; a name is in the list exactly
    when the pattern captures it in the text of a paragraph of the body, of
    a table cell or of one of the six header and footer variants; and every
    name that server.py lists for a document is listed by server-gemini.py
    too. *)
Theorem X7_server_gemini_fields (doc : Document) :
  Sorted String.le (ServerGemini.find_template_fields doc)
  /\ NoDup (ServerGemini.find_template_fields doc)
  /\ (forall f, f ∈ ServerGemini.find_template_fields doc
       <-> exists p para, p ∈ gemini_enumerate_regions doc
             /\ heap doc !! p = Some para
             /\ f ∈ findall re_field (text para))
  /\ Server.find_template_fields doc ⊆ ServerGemini.find_template_fields doc.
Proof.
  split; [apply sorted_list_Sorted|]. split; [apply sorted_list_NoDup|].
  split; [apply gemini_fields_elem|]. intros f.
  rewrite (gemini_fields_elem doc f). unfold Server.find_template_fields.
  rewrite sorted_list_elem.
  rewrite server_find_loops_flat.
  rewrite (foldl_find_elem re_field (heap doc)) by done.
  intros [?%elem_of_empty|(p & para & Hp & Hh & Hf)]; [done|].
  exists p, para. split; [by apply primary_regions_gemini|done].
Qed.

(** ** A substitution pass, paragraph by paragraph *)

Lemma fmap_ext_elem {A B : Type} (f g : A -> B) (l : list A) :
  (forall x, x ∈ l -> f x = g x) -> f <$> l = g <$> l.
Proof. intros H. by apply Forall_fmap_ext_1, Forall_forall. Qed.

Lemma filter_ext_elem {A : Type} (P Q : A -> Prop)
    `{!forall x, Decision (P x), !forall x, Decision (Q x)} (l : list A) :
  (forall x, x ∈ l -> P x <-> Q x) -> filter P l = filter Q l.
Proof.
  induction l as [|x l IH]; intros HPQ; [done|].
  rewrite !filter_cons. rewrite IH by (intros y Hy; apply HPQ; by right).
  destruct (decide (P x)) as [HP|HP].
  - rewrite decide_True; [done|]. by apply (HPQ x); [left|].
  - rewrite decide_False; [done|]. intros HQ. apply HP.
    by apply (HPQ x); [left|].
Qed.

Section Pass.
Context {St : Type}.
Variables (visit : St -> pid -> St) (ok : St -> Prop).
Variables (objs : St -> list Paragraph) (cnt : St -> nat) (wr : St -> list write).
Variables (c : Paragraph -> nat) (new : Paragraph -> Paragraph).

Hypothesis visit_none : forall st q,
  ok st -> objs st !! q = None -> visit st q = st.
Hypothesis visit_zero : forall st q para,
  ok st -> objs st !! q = Some para -> c para = 0 -> visit st q = st.
Hypothesis visit_pos : forall st q para,
  ok st -> objs st !! q = Some para -> 0 < c para ->
  ok (visit st q)
  /\ objs (visit st q) = <[q := new para]> (objs st)
  /\ cnt (visit st q) = cnt st + c para
  /\ wr (visit st q) = wr st ++ [SetParagraphText q].

Lemma pass_visit (st : St) (q : pid) :
  ok st ->
  ok (visit st q)
  /\ objs (visit st q)
     = match objs st !! q with
       | Some para => if 0 <? c para then <[q := new para]> (objs st) else objs st
       | None => objs st
       end
  /\ cnt (visit st q) = cnt st + count_at c (objs st) q
  /\ wr (visit st q)
     = wr st ++ (if 0 <? count_at c (objs st) q then [SetParagraphText q] else []).
Proof.
  intros Hok. unfold count_at. destruct (objs st !! q) as [para|] eqn:E.
  - cbn [from_option]. destruct (0 <? c para) eqn:Ec.
    + apply Nat.ltb_lt in Ec. by apply visit_pos.
    + apply Nat.ltb_ge in Ec. rewrite (visit_zero st q para) by (done || lia).
      rewrite app_nil_r. repeat split; [done|lia].
  - rewrite visit_none by done. cbn. rewrite app_nil_r.
    repeat split; [done|lia].
Qed.

Lemma pass_ok (st : St) (ps : list pid) : ok st -> ok (foldl visit st ps).
Proof.
  intros H. apply (foldl_invariant ok); [|done].
  intros a b Ha. by apply pass_visit.
Qed.






(** A paragraph that the pass does not visit is left alone. *)
Lemma pass_frame (st : St) (ps : list pid) (p : pid) :
  ok st -> p ∉ ps -> objs (foldl visit st ps) !! p = objs st !! p.
Proof.
  revert st. induction ps as [|q ps IH]; intros st Hok Hp; [done|].
  cbn [foldl]. apply not_elem_of_cons in Hp as [Hne Hp].
  destruct (pass_visit st q Hok) as (Hok' & Ho & _).
  rewrite IH by done. rewrite Ho.
  destruct (objs st !! q); [|done]. destruct (0 <? _); [|done].
  by apply list_lookup_insert_ne.
Qed.

(** The paragraph that a visit leaves. *)
Lemma pass_visit_lookup (st : St) (q : pid) :
  ok st ->
  objs (visit st q) !! q
  = (fun para => if 0 <? c para then new para else para) <$> objs st !! q.
Proof.
  intros Hok. destruct (pass_visit st q Hok) as (_ & -> & _).
  destruct (objs st !! q) as [para|] eqn:E; [|by rewrite E].
  cbn [fmap option_fmap option_map].
  destruct (0 <? c para); [|by rewrite E].
  rewrite list_lookup_insert_eq; [done|]. by apply lookup_lt_Some in E.
Qed.

(** When no paragraph is visited twice, the pass treats each visited
    paragraph by itself. *)
Lemma pass_paragraphs (st : St) (ps : list pid) :
  ok st -> NoDup ps ->
  (forall p, p ∈ ps ->
     objs (foldl visit st ps) !! p
     = (fun para => if 0 <? c para then new para else para) <$> objs st !! p)
  /\ cnt (foldl visit st ps) = cnt st + sum_list (count_at c (objs st) <$> ps)
  /\ wr (foldl visit st ps)
     = wr st ++ (SetParagraphText
                   <$> filter (fun p => 0 < count_at c (objs st) p) ps).
Proof.
  revert st. induction ps as [|q ps IH]; intros st Hok Hnd.
  - cbn. rewrite app_nil_r. split; [|split; [lia|done]].
    by intros p ?%elem_of_nil.
  - apply NoDup_cons in Hnd as [Hq Hnd]. cbn [foldl].
    destruct (pass_visit st q Hok) as (Hok' & Ho & Hc & Hw).
    destruct (IH (visit st q) Hok' Hnd) as (IHo & IHc & IHw).
    assert (Hsame : forall p, p ∈ ps ->
              objs (visit st q) !! p = objs st !! p).
    { intros p Hp. rewrite Ho. destruct (objs st !! q); [|done].
      destruct (0 <? _); [|done]. apply list_lookup_insert_ne.
      by intros ->. }
    assert (Hcount : forall p, p ∈ ps ->
              count_at c (objs (visit st q)) p = count_at c (objs st) p).
    { intros p Hp. unfold count_at. by rewrite Hsame. }
    split; [|split].
    + intros p [->|Hp]%elem_of_cons.
      * rewrite pass_frame by done. by apply pass_visit_lookup.
      * rewrite IHo by done. by rewrite Hsame.
    + rewrite IHc, Hc. rewrite fmap_cons.
      rewrite (fmap_ext_elem _ (count_at c (objs st)) ps) by done.
      cbn [sum_list_with id]. lia.
    + rewrite IHw, Hw, filter_cons, <- app_assoc. f_equal.
      rewrite (filter_ext_elem _ (fun p => 0 < count_at c (objs st) p) ps).
      * destruct (0 <? count_at c (objs st) q) eqn:E.
        -- apply Nat.ltb_lt in E. by rewrite decide_True.
        -- apply Nat.ltb_ge in E. rewrite decide_False by lia. done.
      * intros p Hp. by rewrite Hcount.
Qed.

End Pass.

(** ** The pass of server-new.py *)






(** ** The pass of server-gemini.py *)

Lemma dict_in_iff (k : string) (m : fieldmap) : dict_in k m = true <-> k ∈ m.*1.
Proof.
  split; [|apply dict_in_key]. unfold dict_in.
  induction m as [|[k' v] m IH]; simpl; [done|].
  destruct (String.eqb k k') eqn:E.
  - apply String.eqb_eq in E as ->. intros _. left.
  - intros H. right. by apply IH.
Qed.


(** ** Texts that XML can hold *)

#[local] Arguments xml_char : simpl never.
#[local] Arguments read_back_char : simpl never.

Lemma xml_text_app (a b : string) :
  xml_text (a +:+ b) = xml_text a && xml_text b.
Proof.
  induction a as [|c a IH]; [done|].
  rewrite append_cons. cbn [xml_text]. by rewrite IH, andb_assoc.
Qed.

Lemma xml_read_back_char (c : ascii) :
  xml_char c = true -> xml_char (read_back_char c) = true.
Proof.
  unfold read_back_char. by destruct (Ascii.eqb c "013").
Qed.

Lemma xml_read_back (t : string) :
  xml_text t = true -> xml_text (read_back t) = true.
Proof.
  induction t as [|c t IH]; [done|]. cbn [xml_text read_back].
  intros [Hc Ht]%andb_true_iff. by rewrite xml_read_back_char, IH.
Qed.



Lemma assign_text_xml (t : string) :
  xml_text t = true -> assign_text t = Some (read_back t).
Proof. unfold assign_text. by intros ->. Qed.

Lemma xml_text_of_runs (para : Paragraph) :
  Forall (fun run => xml_text run = true) para -> xml_text (text para) = true.
Proof.
  induction 1 as [|r para Hr _ IH]; [done|].
  cbn [text foldr]. rewrite xml_text_app, Hr. exact IH.
Qed.

Lemma xml_replace_from (old new : string) (k : nat) (s : string) :
  xml_text new = true -> xml_text s = true ->
  xml_text (replace_from old new k s) = true.
Proof.
  intros Hn. revert k. induction s as [|c s IH]; intros k; [done|].
  cbn [xml_text replace_from]. intros [Hc Hs]%andb_true_iff.
  destruct k as [|k]; [|by apply IH].
  destruct (String.prefix old (String c s)).
  - rewrite xml_text_app, Hn. by apply IH.
  - cbn [xml_text]. rewrite Hc. by apply IH.
Qed.

Lemma xml_insert_after_each (new s : string) :
  xml_text new = true -> xml_text s = true ->
  xml_text (insert_after_each new s) = true.
Proof.
  intros Hn. induction s as [|c s IH]; [done|].
  cbn [xml_text insert_after_each]. intros [Hc Hs]%andb_true_iff.
  by rewrite Hc, xml_text_app, Hn, IH.
Qed.

Lemma xml_str_replace (old new s : string) :
  xml_text new = true -> xml_text s = true ->
  xml_text (str_replace old new s) = true.
Proof.
  intros Hn Hs. unfold str_replace. destruct old.
  - rewrite xml_text_app, Hn. by apply xml_insert_after_each.
  - by apply xml_replace_from.
Qed.

Lemma xml_heap_lookup (heap : list Paragraph) (p : pid) (para : Paragraph) :
  xml_heap heap -> heap !! p = Some para ->
  Forall (fun run => xml_text run = true) para.
Proof. intros H Hp. by apply (Forall_lookup_1 _ _ _ _ H Hp). Qed.

Lemma xml_heap_insert (heap : list Paragraph) (p : pid) (para : Paragraph) :
  xml_heap heap -> Forall (fun run => xml_text run = true) para ->
  xml_heap (<[p := para]> heap).
Proof. intros H Hp. by apply Forall_insert. Qed.

Lemma dict_get_elem (k v : string) (m : fieldmap) :
  dict_get k m = Some v -> exists k', (k', v) ∈ m.
Proof.
  induction m as [|[k' v'] m IH]; [done|]. cbn [dict_get].
  destruct (String.eqb k k').
  - intros [= ->]. exists k'. left.
  - intros (k'' & H)%IH. exists k''. by right.
Qed.

Lemma xml_values_get (m : fieldmap) (k v : string) :
  xml_values m -> dict_get k m = Some v -> xml_text v = true.
Proof.
  intros H (k' & Hin)%dict_get_elem.
  by apply (proj1 (Forall_forall _ _) H (k', v)).
Qed.

Section GeminiPass.
Variable expand : string -> string -> option string.
Variable m : fieldmap.
Hypothesis plain : plain_values m.
Hypothesis xml : xml_values m.


(** With values that hold no backslash, [re.sub] does not raise, and a
    text that XML can hold stays one. *)
Lemma gemini_text_xml (t : string) (n : nat) :
  xml_text t = true ->
  exists t' n',
    foldl (ServerGemini.replace_field expand) (Some (t, n)) m = Some (t', n')
    /\ xml_text t' = true.
Proof.
  revert t n. induction m as [|[k v] m' IH]; intros t n Ht.
  - by exists t, n.
  - apply Forall_cons in plain as [Hv plain'].
    apply Forall_cons in xml as [Hx xml'].
    cbn [foldl]. unfold ServerGemini.replace_field at 2.
    unfold ServerGemini.re_sub. cbn [fst snd] in *. rewrite Hv.
    destruct (0 <? _); [|by apply IH].
    apply IH; [done..|]. by apply xml_str_replace.
Qed.

Lemma gemini_text_some (t : string) :
  exists t' n, ServerGemini.replace_in_paragraph_text expand m t = Some (t', n).
Proof.
  destruct (gemini_fold_mono expand m t 0 plain) as (t' & n & H & _).
  by exists t', n.
Qed.


Lemma gemini_visit_none (st : option pass) (q : pid) :
  returned_xml st -> from_option objects [] st !! q = None ->
  ServerGemini._replace_in_paragraph_or_cell expand m st q = st.
Proof. intros (s & -> & _) H. cbn in *. by rewrite H. Qed.

Lemma gemini_visit_zero (st : option pass) (q : pid) (para : Paragraph) :
  returned_xml st -> from_option objects [] st !! q = Some para ->
  gemini_count expand m para = 0 ->
  ServerGemini._replace_in_paragraph_or_cell expand m st q = st.
Proof.
  intros (s & -> & _) H Hc. cbn in *. rewrite H. unfold gemini_count in Hc.
  destruct (gemini_text_some (text para)) as (t' & n & Ht).
  rewrite Ht in *. cbn in Hc. by subst n.
Qed.

Lemma gemini_visit_pos (st : option pass) (q : pid) (para : Paragraph) :
  returned_xml st -> from_option objects [] st !! q = Some para ->
  0 < gemini_count expand m para ->
  let st' := ServerGemini._replace_in_paragraph_or_cell expand m st q in
  returned_xml st'
  /\ from_option objects [] st'
     = <[q := gemini_paragraph expand m para]> (from_option objects [] st)
  /\ from_option replacements_count 0 st'
     = from_option replacements_count 0 st + gemini_count expand m para
  /\ from_option writes [] st' = from_option writes [] st ++ [SetParagraphText q].
Proof.
  intros (s & -> & Hx) H Hc. cbn [from_option] in *.
  unfold ServerGemini._replace_in_paragraph_or_cell. rewrite H.
  unfold gemini_count, gemini_paragraph in *.
  destruct (gemini_text_xml (text para) 0) as (t' & n & Ht & Hxt).
  { apply xml_text_of_runs. by apply (xml_heap_lookup (objects s) q). }
  unfold ServerGemini.replace_in_paragraph_text in *.
  rewrite Ht in *. cbn [from_option snd] in Hc.
  apply Nat.ltb_lt in Hc. rewrite Hc, (assign_text_xml _ Hxt).
  cbn [from_option objects replacements_count writes].
  split; [|done]. eexists. split; [done|]. cbn [objects].
  apply xml_heap_insert; [done|]. constructor; [|done].
  by apply xml_read_back.
Qed.

Lemma gemini_paragraph_if (para : Paragraph) :
  (if 0 <? gemini_count expand m para
   then gemini_paragraph expand m para else para)
  = gemini_paragraph expand m para.
Proof.
  unfold gemini_count, gemini_paragraph.
  destruct (ServerGemini.replace_in_paragraph_text expand m (text para))
    as [[t [|n]]|]; done.
Qed.

End GeminiPass.

(** ** What [generate_document] answers *)



Lemma gemini_preview_fold (data : fieldmap) (fields : list string)
    (result : list preview_line) (replaced : list string) :
  foldl (ServerGemini.preview_field data) (result, replaced) fields
  = (result ++ ((fun f => match dict_get f data with
                          | Some v => WithValue f v
                          | None => WithoutValue f
                          end) <$> fields),
     replaced ++ filter (fun f => dict_in f data = true) fields).
Proof.
  revert result replaced.
  induction fields as [|f fields IH]; intros result replaced.
  - cbn. by rewrite !app_nil_r.
  - cbn [foldl]. rewrite filter_cons, fmap_cons.
    unfold ServerGemini.preview_field at 2.
    destruct (dict_get f data) as [v|] eqn:E.
    + rewrite decide_True by (unfold dict_in; by rewrite E).
      rewrite IH. by rewrite <- !app_assoc.
    + rewrite decide_False by (unfold dict_in; by rewrite E).
      rewrite IH. by rewrite <- !app_assoc.
Qed.



(** ** Paragraph by paragraph *)



(** ** The pass of server-new.py with the text setter *)

Section ServerNewDocxPass.
Variable m : fieldmap.
Hypothesis xml : xml_values m.

Lemma server_new_fold_xml (fs : list string) (t : string) (n : nat) :
  xml_text t = true ->
  xml_text (foldl (ServerNew.replace_field m) (t, n) fs).1 = true.
Proof.
  revert t n. induction fs as [|f fs IH]; intros t n Ht; [done|].
  cbn [foldl]. unfold ServerNew.replace_field at 2.
  destruct (dict_get (strip f) m) as [v|] eqn:E; [|by apply IH].
  apply IH. apply xml_str_replace; [|done]. by apply (xml_values_get m (strip f)).
Qed.

Lemma server_new_docx_visit_none (st : option pass) (q : pid) :
  returned_xml st -> from_option objects [] st !! q = None ->
  ServerNewDocx.replace_visit m st q = st.
Proof. intros (s & -> & _) H. cbn in *. by rewrite H. Qed.

Lemma server_new_docx_visit_zero (st : option pass) (q : pid)
    (para : Paragraph) :
  returned_xml st -> from_option objects [] st !! q = Some para ->
  server_new_count m para = 0 ->
  ServerNewDocx.replace_visit m st q = st.
Proof.
  intros (s & -> & _) H Hc. cbn [from_option] in *.
  unfold ServerNewDocx.replace_visit, server_new_count in *. rewrite H.
  destruct (ServerNew.replace_in_text m (text para)) as [t n].
  cbn [snd] in Hc. by subst n.
Qed.

Lemma server_new_docx_visit_pos (st : option pass) (q : pid)
    (para : Paragraph) :
  returned_xml st -> from_option objects [] st !! q = Some para ->
  0 < server_new_count m para ->
  let st' := ServerNewDocx.replace_visit m st q in
  returned_xml st'
  /\ from_option objects [] st'
     = <[q := server_new_paragraph m para]> (from_option objects [] st)
  /\ from_option replacements_count 0 st'
     = from_option replacements_count 0 st + server_new_count m para
  /\ from_option writes [] st' = from_option writes [] st ++ [SetParagraphText q].
Proof.
  intros (s & -> & Hx) H Hc. cbn [from_option] in *.
  assert (Hxt : xml_text (ServerNew.replace_in_text m (text para)).1 = true).
  { apply server_new_fold_xml, xml_text_of_runs.
    by apply (xml_heap_lookup (objects s) q). }
  unfold ServerNewDocx.replace_visit, server_new_paragraph, server_new_count in *.
  rewrite H. destruct (ServerNew.replace_in_text m (text para)) as [t n].
  cbn [fst snd] in *. apply Nat.ltb_lt in Hc.
  rewrite Hc, (assign_text_xml _ Hxt).
  cbn [from_option objects replacements_count writes].
  split; [|done]. eexists. split; [done|]. cbn [objects].
  apply xml_heap_insert; [done|]. constructor; [|done].
  by apply xml_read_back.
Qed.

Lemma server_new_paragraph_if (para : Paragraph) :
  (if 0 <? server_new_count m para
   then server_new_paragraph m para else para)
  = server_new_paragraph m para.
Proof. unfold server_new_paragraph. by destruct (0 <? _). Qed.

End ServerNewDocxPass.

(** X11: with values and a template that hold only characters that XML
    can hold, and when no paragraph is visited twice, the pass of
    server-new.py returns and has treated each visited paragraph by itself:
    the paragraph is the one run with the substituted text, as python-docx
    gives it back (a carriage return as a line feed), when its own count is
    positive, and is as it was otherwise; paragraphs that are not visited
    are as they were; the total is the sum of the paragraphs' counts; and
    [paragraph.text] is assigned once for each paragraph with a positive
    count, in the order of the visits. *)
Theorem X11_server_new_paragraphwise (doc : Document) (m : fieldmap) :
  xml_values m -> xml_heap (heap doc) ->
  NoDup (primary_enumerate_regions doc) ->
  exists st,
    ServerNewDocx.replace_fields_in_document doc m = Some st
    /\ (forall p, p ∈ primary_enumerate_regions doc ->
          objects st !! p = server_new_paragraph m <$> heap doc !! p)
    /\ (forall p, p ∉ primary_enumerate_regions doc ->
          objects st !! p = heap doc !! p)
    /\ replacements_count st
       = sum_list (count_at (server_new_count m) (heap doc)
                     <$> primary_enumerate_regions doc)
    /\ writes st
       = SetParagraphText
           <$> filter (fun p => 0 < count_at (server_new_count m) (heap doc) p)
                      (primary_enumerate_regions doc).
Proof.
  intros xml Hx Hnd. unfold ServerNewDocx.replace_fields_in_document.
  rewrite server_new_replace_loops_flat.
  set (visit := ServerNewDocx.replace_visit m).
  set (st0 := Some (Pass (heap doc) 0 [])).
  set (ps := primary_enumerate_regions doc) in *.
  pose proof (server_new_docx_visit_none m) as Hn.
  pose proof (server_new_docx_visit_zero m) as Hz.
  pose proof (server_new_docx_visit_pos m xml) as Hp.
  assert (Hok0 : returned_xml st0) by (by eexists).
  destruct (pass_ok visit returned_xml (from_option objects [])
              (from_option replacements_count 0) (from_option writes [])
              (server_new_count m) (server_new_paragraph m)
              Hn Hz Hp st0 ps Hok0) as (st & Est & _).
  destruct (pass_paragraphs visit returned_xml (from_option objects [])
              (from_option replacements_count 0) (from_option writes [])
              (server_new_count m) (server_new_paragraph m)
              Hn Hz Hp st0 ps Hok0 Hnd) as (Ho & Hc & Hw).
  pose proof (pass_frame visit returned_xml (from_option objects [])
              (from_option replacements_count 0) (from_option writes [])
              (server_new_count m) (server_new_paragraph m)
              Hn Hz Hp st0 ps) as Hfr.
  rewrite Est in *. cbn [from_option st0 objects replacements_count writes] in *.
  exists st. split; [done|]. split; [|split; [|by split]].
  - intros p Hp'. rewrite Ho by done.
    destruct (heap doc !! p) as [para|]; [|done].
    cbn [fmap option_fmap option_map]. by rewrite server_new_paragraph_if.
  - intros p Hp'. by apply Hfr.
Qed.

Lemma X11_server_new_paragraphwise_witness :
  exists st,
    ServerNewDocx.replace_fields_in_document
      {| heap := [["Dear "; "{{b}}"]; ["{{a}}"; "!"]];
         paragraphs := [0]; tables := [[[[1]]]]; sections := [] |}
      [("a", String "013" "1")] = Some st
    /\ objects st !! 1 = Some [String "010" "1!"]
    /\ replacements_count st = 1.
Proof.
  destruct (X11_server_new_paragraphwise
              {| heap := [["Dear "; "{{b}}"]; ["{{a}}"; "!"]];
                 paragraphs := [0]; tables := [[[[1]]]]; sections := [] |}
              [("a", String "013" "1")]) as (st & Hst & Ho & _ & Hc & _).
  - repeat constructor.
  - repeat constructor.
  - apply (bool_decide_unpack _). vm_compute. exact I.
  - exists st. split; [exact Hst|]. split; [|exact Hc].
    apply (Ho 1). vm_compute. right. left.
Defined.

(** X12: the same for server-gemini.py, over the body, the tables and the
    six header and footer variants, with values that hold no backslash
    either. *)
Theorem X12_gemini_paragraphwise
    (expand : string -> string -> option string) (doc : Document)
    (m : fieldmap) :
  plain_values m -> xml_values m -> xml_heap (heap doc) ->
  NoDup (gemini_enumerate_regions doc) ->
  exists st,
    ServerGemini.replace_fields_in_document expand doc m = Some st
    /\ (forall p, p ∈ gemini_enumerate_regions doc ->
          objects st !! p = gemini_paragraph expand m <$> heap doc !! p)
    /\ (forall p, p ∉ gemini_enumerate_regions doc ->
          objects st !! p = heap doc !! p)
    /\ replacements_count st
       = sum_list (count_at (gemini_count expand m) (heap doc)
                     <$> gemini_enumerate_regions doc)
    /\ writes st
       = SetParagraphText
           <$> filter (fun p => 0 < count_at (gemini_count expand m) (heap doc) p)
                      (gemini_enumerate_regions doc).
Proof.
  intros plain xml Hx Hnd. unfold ServerGemini.replace_fields_in_document.
  rewrite gemini_replace_loops_flat.
  set (visit := ServerGemini._replace_in_paragraph_or_cell expand m).
  set (st0 := Some (Pass (heap doc) 0 [])).
  set (ps := gemini_enumerate_regions doc) in *.
  pose proof (gemini_visit_none expand m) as Hn.
  pose proof (gemini_visit_zero expand m plain) as Hz.
  pose proof (gemini_visit_pos expand m plain xml) as Hp.
  assert (Hok0 : returned_xml st0) by (by eexists).
  destruct (pass_ok visit returned_xml (from_option objects [])
              (from_option replacements_count 0) (from_option writes [])
              (gemini_count expand m) (gemini_paragraph expand m)
              Hn Hz Hp st0 ps Hok0) as (st & Est & _).
  destruct (pass_paragraphs visit returned_xml (from_option objects [])
              (from_option replacements_count 0) (from_option writes [])
              (gemini_count expand m) (gemini_paragraph expand m)
              Hn Hz Hp st0 ps Hok0 Hnd) as (Ho & Hc & Hw).
  pose proof (pass_frame visit returned_xml (from_option objects [])
              (from_option replacements_count 0) (from_option writes [])
              (gemini_count expand m) (gemini_paragraph expand m)
              Hn Hz Hp st0 ps) as Hfr.
  rewrite Est in *. cbn [from_option st0 objects replacements_count writes] in *.
  exists st. split; [done|]. split; [|split; [|by split]].
  - intros p Hp'. rewrite Ho by done.
    destruct (heap doc !! p) as [para|]; [|done].
    cbn [fmap option_fmap option_map]. by rewrite gemini_paragraph_if.
  - intros p Hp'. by apply Hfr.
Qed.

Lemma X12_gemini_paragraphwise_witness :
  exists st,
    ServerGemini.replace_fields_in_document (fun _ _ => None)
      {| heap := [["Hola {{nom"; "bre}}"]; ["pie"]]; paragraphs := [0];
         tables := [];
         sections := [{| header := None; first_page_header := None;
                         even_page_header := None; footer := Some [1];
                         first_page_footer := None;
                         even_page_footer := None |}] |}
      [("nombre", String "013" "Ana")] = Some st
    /\ objects st !! 0 = Some [String.append "Hola " (String "010" "Ana")]
    /\ replacements_count st = 1.
Proof.
  destruct (X12_gemini_paragraphwise (fun _ _ => None)
      {| heap := [["Hola {{nom"; "bre}}"]; ["pie"]]; paragraphs := [0];
         tables := [];
         sections := [{| header := None; first_page_header := None;
                         even_page_header := None; footer := Some [1];
                         first_page_footer := None;
                         even_page_footer := None |}] |}
      [("nombre", String "013" "Ana")]) as (st & Hst & Ho & _ & Hc & _).
  - repeat constructor.
  - repeat constructor.
  - repeat constructor.
  - apply (bool_decide_unpack _). vm_compute. exact I.
  - exists st. split; [exact Hst|]. split; [|exact Hc].
    apply (Ho 0). vm_compute. left.
Defined.

(** ** Runs in server.py *)

Lemma contains_count (pat t : string) :
  pat <> "" -> contains pat t = (0 <? str_count pat t).
Proof.
  intros Hp. destruct (contains pat t) eqn:E.
  - symmetry. apply Nat.ltb_lt. by apply contains_count_pos.
  - unfold str_count. destruct pat; [done|]. by rewrite count_from_none.
Qed.

Lemma server_replace_field_eq (t : string) (n : nat) (k v : string) :
  Server.replace_field (t, n) (k, v)
  = if contains (Server.pattern_of k) t
    then (str_replace (Server.pattern_of k) v t,
          n + str_count (Server.pattern_of k) t)
    else (t, n).
Proof. done. Qed.



(** ** Runs in server.py, with the text setter *)












(** A value with a control character: the assignment raises in each
    variant, and [generate_document] answers with the error text. *)
Lemma control_character_raises :
  let doc := {| heap := [["{{a}}"]]; paragraphs := [0]; tables := [];
                sections := [] |} in
  let m := [("a", String "001" "")] in
  ServerDocx.replace_fields_in_document doc m = None
  /\ ServerNewDocx.replace_fields_in_document doc m = None
  /\ (forall expand, ServerGemini.replace_fields_in_document expand doc m = None)
  /\ (forall expand, ServerGemini.generate_document expand true (fun _ => true)
         (JsonObject m) (Template doc) "" "20250101_120000" = OtherError).
Proof. by vm_compute. Qed.

(** ** server.py and server-gemini.py on one text *)

(** X14: on one text, and with values that hold no backslash,
    server-gemini.py computes the same new text and the same count as
    server.py does on a run: the two differ only in what they take as the
    text, the flattened paragraph or one run. *)
Theorem X14_server_gemini_same_text
    (expand : string -> string -> option string) (m : fieldmap) (t : string) :
  plain_values m ->
  ServerGemini.replace_in_paragraph_text expand m t
  = Some (Server.replace_in_run m 0 t).
Proof.
  unfold ServerGemini.replace_in_paragraph_text, Server.replace_in_run.
  generalize 0 as n. intros n H. revert t n.
  induction H as [|[k v] m Hv _ IH]; intros t n; [done|].
  cbn [foldl]. rewrite server_replace_field_eq.
  unfold ServerGemini.replace_field at 2. unfold ServerGemini.re_sub.
  cbn [fst snd] in *. rewrite Hv.
  change (ServerGemini.pattern_of k) with (Server.pattern_of k).
  rewrite (contains_count (Server.pattern_of k) t) by done.
  destruct (0 <? str_count (Server.pattern_of k) t); apply IH.
Qed.

Lemma X14_server_gemini_same_text_witness :
  ServerGemini.replace_in_paragraph_text (fun _ _ => None)
    [("a", "1"); ("b", "{{a}}")] "{{b}} and {{a}}"
  = Some (Server.replace_in_run [("a", "1"); ("b", "{{a}}")] 0 "{{b}} and {{a}}").
Proof.
  apply (X14_server_gemini_same_text (fun _ _ => None)
           [("a", "1"); ("b", "{{a}}")] "{{b}} and {{a}}").
  repeat constructor.
Defined.

(** ** Previews *)

Lemma server_new_preview_fold (data : fieldmap) (fields : list string)
    (result : list preview_line) (n : nat) :
  foldl (ServerNew.preview_field data) (result, n) fields
  = (result ++ ((fun f => match dict_get f data with
                          | Some v => WithValue f v
                          | None => WithoutValue f
                          end) <$> fields),
     n + length (filter (fun f => dict_in f data = true) fields)).
Proof.
  revert result n. induction fields as [|f fields IH]; intros result n.
  - cbn. rewrite app_nil_r. f_equal. lia.
  - cbn [foldl]. rewrite filter_cons, fmap_cons.
    unfold ServerNew.preview_field at 2.
    destruct (dict_get f data) as [v|] eqn:E.
    + rewrite decide_True by (unfold dict_in; by rewrite E).
      rewrite IH, <- app_assoc. cbn [length app]. f_equal. lia.
    + rewrite decide_False by (unfold dict_in; by rewrite E).
      by rewrite IH, <- app_assoc.
Qed.

Lemma extra_fields_elem (data : fieldmap) (fields : list string) (k : string) :
  k ∈ (list_to_set (data.*1) ∖ list_to_set fields : gset string)
  <-> k ∈ data.*1 /\ k ∉ fields.
Proof. by rewrite elem_of_difference, !elem_of_list_to_set. Qed.

(** X15: [preview_replacements] of server-gemini.py shows one line for
    each template field, in the order of the sorted list, with the value of
    the field when it is a key of the data; the fields it reports as
    replaced are the template fields that are keys, each once; the extra
    fields are the keys that are no template field; so every key of the
    data is either reported as replaced or listed as extra, never both. *)
Theorem X15_gemini_preview (data : fieldmap) (doc : Document) :
  exists pv,
    ServerGemini.preview_replacements (JsonObject data) (Template doc) = Shown pv
    /\ ServerGemini.template_fields pv = ServerGemini.find_template_fields doc
    /\ length (ServerGemini.field_lines pv)
       = length (ServerGemini.template_fields pv)
    /\ (forall i f, ServerGemini.template_fields pv !! i = Some f ->
          ServerGemini.field_lines pv !! i
          = Some match dict_get f data with
                 | Some v => WithValue f v
                 | None => WithoutValue f
                 end)
    /\ (forall k, k ∈ ServerGemini.replaced_fields pv
          <-> k ∈ ServerGemini.template_fields pv /\ k ∈ data.*1)
    /\ (forall k, k ∈ ServerGemini.extra_fields pv
          <-> k ∈ data.*1 /\ k ∉ ServerGemini.template_fields pv)
    /\ (forall k, k ∈ data.*1 ->
          k ∈ ServerGemini.replaced_fields pv
          <-> k ∉ ServerGemini.extra_fields pv)
    /\ NoDup (ServerGemini.replaced_fields pv)
    /\ length (ServerGemini.replaced_fields pv)
       <= length (ServerGemini.template_fields pv).
Proof.
  unfold ServerGemini.preview_replacements. rewrite gemini_preview_fold.
  eexists. split; [done|].
  cbn [ServerGemini.template_fields ServerGemini.field_lines
       ServerGemini.replaced_fields ServerGemini.extra_fields app].
  set (fields := ServerGemini.find_template_fields doc).
  assert (Hrep : forall k,
            k ∈ filter (fun f => dict_in f data = true) fields
            <-> k ∈ fields /\ k ∈ data.*1).
  { intros k. rewrite list_elem_of_filter, dict_in_iff. tauto. }
  split; [done|]. split; [by rewrite length_fmap|].
  split; [|split; [done|split; [|split; [|split]]]].
  - intros i f Hi. by rewrite list_lookup_fmap, Hi.
  - intros k. apply extra_fields_elem.
  - intros k Hk. rewrite Hrep, extra_fields_elem.
    destruct (decide (k ∈ fields)); tauto.
  - apply NoDup_filter. apply sorted_list_NoDup.
  - apply length_filter.
Qed.

Lemma X15_gemini_preview_witness :
  exists pv,
    ServerGemini.preview_replacements
      (JsonObject [("a", "1"); ("x", "2")])
      (Template {| heap := [["{{a}} {{b}}"]]; paragraphs := [0]; tables := [];
                   sections := [] |}) = Shown pv
    /\ ("a" ∈ ServerGemini.replaced_fields pv
        <-> "a" ∉ ServerGemini.extra_fields pv).
Proof.
  destruct (X15_gemini_preview [("a", "1"); ("x", "2")]
              {| heap := [["{{a}} {{b}}"]]; paragraphs := [0]; tables := [];
                 sections := [] |})
    as (pv & Hpv & _ & _ & _ & _ & _ & Hpart & _).
  exists pv. split; [exact Hpv|]. apply Hpart. vm_compute. left.
Defined.

(** X16: the summary of [preview_replacements] of server-new.py counts
    the template fields that are keys of the data, never more than there
    are template fields; the extra fields are the keys that are no template
    field; and the count of the summary and the number of extra fields add
    up to the number of keys. *)
Theorem X16_server_new_preview (data : fieldmap) (doc : Document) :
  exists pv,
    ServerNew.preview_replacements (JsonObject data) (Template doc) = Shown pv
    /\ ServerNew.template_count pv
       = length (ServerNew.find_template_fields doc)
    /\ ServerNew.field_lines pv
       = (fun f => match dict_get f data with
                   | Some v => WithValue f v
                   | None => WithoutValue f
                   end) <$> ServerNew.find_template_fields doc
    /\ ServerNew.replaced_count pv
       = length (filter (fun f => f ∈ data.*1)
                        (ServerNew.find_template_fields doc))
    /\ ServerNew.replaced_count pv <= ServerNew.template_count pv
    /\ (forall k, k ∈ ServerNew.extra_fields pv
          <-> k ∈ data.*1 /\ k ∉ ServerNew.find_template_fields doc)
    /\ (NoDup data.*1 ->
        ServerNew.replaced_count pv + size (ServerNew.extra_fields pv)
        = length data).
Proof.
  unfold ServerNew.preview_replacements. rewrite server_new_preview_fold.
  eexists. split; [done|].
  cbn [ServerNew.template_count ServerNew.field_lines
       ServerNew.replaced_count ServerNew.extra_fields app Nat.add].
  set (fields := ServerNew.find_template_fields doc).
  assert (Hfilter : filter (fun f => dict_in f data = true) fields
                    = filter (fun f => f ∈ data.*1) fields).
  { apply filter_ext_elem. intros f _. apply dict_in_iff. }
  rewrite Hfilter.
  split; [done|]. split; [done|]. split; [done|].
  split; [apply length_filter|]. split; [intros k; apply extra_fields_elem|].
  intros Hnd.
  assert (Hf : NoDup (filter (fun f => f ∈ data.*1) fields))
    by apply NoDup_filter, sorted_list_NoDup.
  rewrite <- (size_list_to_set (C := gset string) _ Hf).
  rewrite <- (length_fmap fst data).
  rewrite <- (size_list_to_set (C := gset string) _ Hnd).
  rewrite <- size_union.
  - f_equal. apply set_eq. intros k.
    rewrite elem_of_union, extra_fields_elem, !elem_of_list_to_set,
      list_elem_of_filter.
    destruct (decide (k ∈ fields)); tauto.
  - intros k. rewrite extra_fields_elem, elem_of_list_to_set,
      list_elem_of_filter. tauto.
Qed.

Lemma X16_server_new_preview_witness :
  exists pv,
    ServerNew.preview_replacements
      (JsonObject [("a", "1"); ("x", "2")])
      (Template {| heap := [["{{a}} {{b}}"]]; paragraphs := [0]; tables := [];
                   sections := [] |}) = Shown pv
    /\ ServerNew.replaced_count pv + size (ServerNew.extra_fields pv) = 2.
Proof.
  destruct (X16_server_new_preview [("a", "1"); ("x", "2")]
              {| heap := [["{{a}} {{b}}"]]; paragraphs := [0]; tables := [];
                 sections := [] |})
    as (pv & Hpv & _ & _ & _ & _ & _ & Hsum).
  exists pv. split; [exact Hpv|]. apply Hsum.
  apply (bool_decide_unpack _). vm_compute. exact I.
Defined.
